(** * dgf1988/db: schema-driven data access (api.go)

    A shallow embedding of the type coder, the schema catalog loader, the
    value converter and the positional query builder of [api.go], and the
    properties of the specification that they satisfy.

    Conventions of the embedding:
    - a Go [string] is a Rocq [string] (a sequence of bytes);
    - a Go [int] / [int64] is a [Z] (the word size is 64 bits);
    - a Go [interface{}] argument is a value of the tagged union [Src]
      (sources) or [Dest] (destinations), one constructor per dynamic type
      the code distinguishes;
    - a destination pointer is an address in a store ([gmap loc Cell]); the
      nil pointer is [None];
    - a function that can [panic] returns [Panics];
    - functions of the Go standard library whose text is not part of the
      repository ([time.Parse], [strconv.ParseFloat], [convertAssign] of
      [database/sql], ...) are the fields of the classes [GoRuntime] and
      [SqlRuntime]; the small ones ([strings.Join], [%d] formatting, the
      ASCII path of [strings.ToLower]) are written out. *)

From Stdlib Require Import ZArith Ascii String DecimalString List.
From Stdlib Require DecimalPos.
From stdpp Require Import base option list strings gmap.

Local Open Scope string_scope.

(** ** Outcomes *)

(** A pure computation that may panic. *)
Inductive Panics (A : Type) : Type :=
| Done (a : A)
| Panic (msg : string).
Arguments Done {A} a.
Arguments Panic {A} msg.

Definition pbind {A B} (m : Panics A) (k : A -> Panics B) : Panics B :=
  match m with
  | Done a => k a
  | Panic msg => Panic msg
  end.

(** ** Strings *)

Definition byte_le (a b : ascii) : bool := (nat_of_ascii a <=? nat_of_ascii b)%nat.

Definition in_range (lo hi c : ascii) : bool := byte_le lo c && byte_le c hi.

Definition is_upper (c : ascii) : bool := in_range "A" "Z" c.
Definition is_lower (c : ascii) : bool := in_range "a" "z" c.
Definition is_digit (c : ascii) : bool := in_range "0" "9" c.

(** [\w] of Go's regexp (RE2): [0-9A-Za-z_]. *)
Definition is_word (c : ascii) : bool :=
  is_digit c || is_upper c || is_lower c || Ascii.eqb c "_".

(** [c < utf8.RuneSelf]. *)
Definition is_ascii_byte (c : ascii) : bool := (nat_of_ascii c <? 128)%nat.

Fixpoint string_forall (p : ascii -> bool) (s : string) : bool :=
  match s with
  | EmptyString => true
  | String c r => p c && string_forall p r
  end.

Fixpoint string_map (f : ascii -> ascii) (s : string) : string :=
  match s with
  | EmptyString => EmptyString
  | String c r => String (f c) (string_map f r)
  end.

Definition isASCII (s : string) : bool := string_forall is_ascii_byte s.

(** [c += 'a' - 'A'] and [c -= 'a' - 'A']. *)
Definition lower_byte (c : ascii) : ascii :=
  if is_upper c then ascii_of_nat (nat_of_ascii c + 32) else c.
Definition upper_byte (c : ascii) : ascii :=
  if is_lower c then ascii_of_nat (nat_of_ascii c - 32) else c.

(** [strings.Join(elems, sep)]. *)
Fixpoint strings_Join (elems : list string) (sep : string) : string :=
  match elems with
  | [] => ""
  | [x] => x
  | x :: rest => x ++ sep ++ strings_Join rest sep
  end.

(** The longest prefix of [s] made of bytes satisfying [p]. *)
Fixpoint take_while (p : ascii -> bool) (s : string) : string :=
  match s with
  | EmptyString => EmptyString
  | String c r => if p c then String c (take_while p r) else EmptyString
  end.

(** [regexp.MustCompile(cls+).FindString(s)] for a one-byte class [cls]:
    the leftmost, longest run of bytes of the class, or [""] without one. *)
Fixpoint FindString_run (p : ascii -> bool) (s : string) : string :=
  match s with
  | EmptyString => EmptyString
  | String c r => if p c then String c (take_while p r) else FindString_run p r
  end.

(** ** Numbers *)

Definition maxInt64 : Z := 2 ^ 63 - 1.
Definition minInt64 : Z := - 2 ^ 63.

(** The verb [%d] (and [%v], [fmt.Sprint]) on an integer. *)
Definition fmt_d (n : Z) : string := NilZero.string_of_int (Z.to_int n).

Definition digit_val (c : ascii) : Z := Z.of_nat (nat_of_ascii c) - 48.

Fixpoint parse_digits (acc : Z) (s : string) : option Z :=
  match s with
  | EmptyString => Some acc
  | String c r =>
      if is_digit c then parse_digits (acc * 10 + digit_val c) r else None
  end.

(** [n, _ = strconv.Atoi(s)]: the value [Atoi] returns, its error dropped
    as [parseFieldType] drops it. A syntax error gives 0 and a value out of
    range is clamped to the nearest bound. *)
Definition strconv_Atoi (s : string) : Z :=
  match s with
  | EmptyString => 0%Z
  | String c r =>
      let neg := Ascii.eqb c "-" in
      let body := if Ascii.eqb c "-" || Ascii.eqb c "+" then r else s in
      match body with
      | EmptyString => 0%Z
      | _ =>
          match parse_digits 0 body with
          | None => 0%Z
          | Some n =>
              if neg then Z.max (- n) minInt64 else Z.min n maxInt64
          end
      end
  end.

(** ** Type codes: the [iota] block *)

Definition TypeInt : Z := 0.
Definition TypeBigint : Z := 1.
Definition TypeFloat : Z := 2.
Definition TypeDouble : Z := 3.
Definition TypeDecimal : Z := 4.
Definition TypeChar : Z := 5.
Definition TypeVarchar : Z := 6.
Definition TypeText : Z := 7.
Definition TypeMediumText : Z := 8.
Definition TypeLongtext : Z := 9.
Definition TypeDate : Z := 10.
Definition TypeDatetime : Z := 11.
Definition TypeYear : Z := 12.
Definition TypeTime : Z := 13.
Definition TypeTimestamp : Z := 14.

(** The closed set of type codes, in declaration order. *)
Definition all_type_codes : list Z :=
  [TypeInt; TypeBigint; TypeFloat; TypeDouble; TypeDecimal;
   TypeChar; TypeVarchar; TypeText; TypeMediumText; TypeLongtext;
   TypeDate; TypeDatetime; TypeYear; TypeTime; TypeTimestamp].

(** A Go [switch] on a string: the first case whose label equals [x]. *)
Fixpoint switch_string {A} (x : string) (cases : list (string * A)) : option A :=
  match cases with
  | [] => None
  | (label, a) :: rest => if String.eqb x label then Some a else switch_string x rest
  end.

(** A Go [switch] on an integer. *)
Fixpoint switch_int {A} (x : Z) (cases : list (Z * A)) : option A :=
  match cases with
  | [] => None
  | (label, a) :: rest => if Z.eqb x label then Some a else switch_int x rest
  end.

(** The cases of [parseDbType], in the order of the source. *)
Definition parseDbType_cases : list (string * Z) :=
  [("int", TypeInt); ("bigint", TypeBigint);
   ("float", TypeFloat); ("double", TypeDouble); ("decimal", TypeDecimal);
   ("char", TypeChar); ("varchar", TypeVarchar); ("text", TypeText);
   ("mediumtext", TypeMediumText); ("longtext", TypeLongtext);
   ("date", TypeDate); ("datetime", TypeDatetime); ("year", TypeYear);
   ("timestamp", TypeTimestamp); ("time", TypeTime)].

(** The cases of [formatDbType], in the order of the source. *)
Definition formatDbType_cases : list (Z * string) :=
  [(TypeInt, "int"); (TypeBigint, "bigint"); (TypeFloat, "float");
   (TypeDouble, "double"); (TypeDecimal, "decimal"); (TypeChar, "char");
   (TypeVarchar, "varchar"); (TypeText, "text");
   (TypeMediumText, "mediumtext"); (TypeLongtext, "longtext");
   (TypeDatetime, "datetime"); (TypeDate, "date"); (TypeYear, "year");
   (TypeTime, "time"); (TypeTimestamp, "timestamp")].

(** [formatDbType]: the name of a code; any other integer panics. The panic
    text is what [%s] prints for an [int] operand. *)
Definition formatDbType (typevalue : Z) : Panics string :=
  match switch_int typevalue formatDbType_cases with
  | Some name => Done name
  | None => Panic ("db: parse type name error: %!s(int=" ++ fmt_d typevalue ++ ")")
  end.

(** ** FieldType *)

Record FieldType : Type := mkFieldType {
  FieldType_Name : string;
  FieldType_Value : Z;
  FieldType_Length : Z
}.

(** A Go [case a, b, c:] on an integer: [x] equals one of the labels. *)
Definition case_int (x : Z) (labels : list Z) : bool := existsb (Z.eqb x) labels.

(** [FieldType.ToSql]. *)
Definition FieldType_ToSql (t : FieldType) : string :=
  if case_int (FieldType_Value t)
       [TypeDate; TypeDatetime; TypeYear; TypeTime; TypeTimestamp;
        TypeText; TypeMediumText; TypeLongtext]
  then FieldType_Name t
  else FieldType_Name t ++ "(" ++ fmt_d (FieldType_Length t) ++ ")".

(** ** The Go standard library *)

(** What the code takes from the standard library without the repository
    holding its text. [unicode_ToLower] and [unicode_ToUpper] are
    [strings.Map(unicode.ToLower, s)] and [strings.Map(unicode.ToUpper, s)]:
    what [strings.ToLower] and [strings.ToUpper] do to a string that is not
    pure ASCII. [float64_eqb] is [==] on floats, [float64_zero] and
    [float64_one] are [0.0] and [1.0], [float64_of_int64 s] is [float64(s)]
    and [fmt_Sprint_float64 s] is [fmt.Sprint(s)]. [time_zero] is the zero
    [time.Time]. The parsers give the text of their error, or the value:
    [strconv_ParseInt s] is [strconv.ParseInt(s, 10, 64)],
    [strconv_ParseFloat s] is [strconv.ParseFloat(s, 64)],
    [time_Parse layout s] is [time.Parse(layout, s)] and
    [time_Format t layout] is [t.Format(layout)]. *)
Class GoRuntime : Type := {
  unicode_ToLower : string -> string;
  unicode_ToUpper : string -> string;
  float64 : Type;
  float64_zero : float64;
  float64_one : float64;
  float64_eqb : float64 -> float64 -> bool;
  float64_of_int64 : Z -> float64;
  fmt_Sprint_float64 : float64 -> string;
  strconv_ParseInt : string -> string + Z;
  strconv_ParseFloat : string -> string + float64;
  strconv_ParseBool : string -> string + bool;
  Time : Type;
  time_zero : Time;
  time_Parse : string -> string -> string + Time;
  time_Format : Time -> string -> string
}.

Section Db.

Context `{GoRuntime}.

(** ** Type coder *)

Definition strings_ToLower (s : string) : string :=
  if isASCII s then string_map lower_byte s else unicode_ToLower s.

Definition strings_ToUpper (s : string) : string :=
  if isASCII s then string_map upper_byte s else unicode_ToUpper s.

(** [parseDbType]: a name outside the table panics. *)
Definition parseDbType (typename : string) : Panics Z :=
  match switch_string (strings_ToLower typename) parseDbType_cases with
  | Some code => Done code
  | None => Panic ("db: parse type name error: " ++ typename)
  end.

(** [parseFieldType]. *)
Definition parseFieldType (typestr : string) : Panics (string * Z * Z) :=
  let name := FindString_run is_word typestr in
  let lengthstr := FindString_run is_digit typestr in
  let length := strconv_Atoi lengthstr in
  pbind (parseDbType name) (fun value => Done (name, value, length)).

Definition parseNullable (nullable : string) : bool :=
  String.eqb (strings_ToUpper nullable) "YES".

(** ** Run-time values *)

(** A [[]byte]; [None] is the nil slice. *)
Definition GoBytes : Type := option string.

(** [string(b)]. *)
Definition string_of_bytes (b : GoBytes) : string := default "" b.

Record NullTime : Type := mkNullTime {
  NullTime_Time : Time;
  NullTime_Valid : bool
}.

Record NullBytes : Type := mkNullBytes {
  NullBytes_Bytes : GoBytes;
  NullBytes_Valid : bool
}.

(** The dynamic type and value of an [interface{}] passed as a source or as
    a positional argument. A pointer is given by what it points to, [None]
    for the nil pointer. [SValuer] is a value of any other type that
    implements [driver.Valuer], given by what its [Value()] returns (the
    error is dropped by every caller here); [SValuerPanics] is one whose
    [Value()] panics. *)
Inductive Src : Type :=
| SNil
| SInt64 (s : Z)
| SFloat64 (s : float64)
| SBool (s : bool)
| SString (s : string)
| SBytes (s : GoBytes)
| STime (s : Time)
| SPtrInt64 (p : option Z)
| SPtrBool (p : option bool)
| SPtrFloat64 (p : option float64)
| SPtrString (p : option string)
| SPtrTime (p : option Time)
| SPtrBytes (p : option GoBytes)
| SNullTime (nt : NullTime)
| SPtrNullTime (p : option NullTime)
| SNullBytes (nb : NullBytes)
| SPtrNullBytes (p : option NullBytes)
| SValuer (value : Src)
| SValuerPanics (msg : string)
| SOther (type_name : string).

(** [v == nil] on an [interface{}]. *)
Definition is_nil (v : Src) : bool :=
  match v with
  | SNil => true
  | _ => false
  end.

(** ** Errors *)

Inductive Error : Type :=
| ErrNilPtr
| ErrIntToBool (s : Z)
| ErrFloatToBool (s : float64)
| ErrConvertType (src : Src) (dest_type : string)
| ErrNotAcceptType (v : Src)
| ErrColumnsNoFound (tablename : string)
| ErrScanColumn (index : nat) (cause : Error)
| ErrLib (msg : string).

(** The text of the errors whose text is a plain concatenation. *)
Definition Error_text (e : Error) : option string :=
  match e with
  | ErrNilPtr => Some "db: destination pointer is nil"
  | ErrIntToBool s =>
      Some ("db: the int64(" ++ fmt_d s ++ ") can't convert value to bool.")
  | ErrFloatToBool s =>
      Some ("db: the float64(" ++ fmt_Sprint_float64 s
            ++ ") can't convert value to bool.")
  | ErrColumnsNoFound tablename =>
      Some ("the table (" ++ tablename ++ ") columns no found")
  | ErrLib msg => Some msg
  | _ => None
  end.

(** A conversion error: one of the two errors [convertValue] makes itself
    when no rule applies to the value. *)
Definition is_conversion_error (e : Error) : bool :=
  match e with
  | ErrIntToBool _ | ErrFloatToBool _ | ErrConvertType _ _ => true
  | _ => false
  end.

(** ** The store and the destinations *)

Definition loc : Type := positive.

Inductive Cell : Type :=
| CInt64 (v : Z)
| CString (v : string)
| CBool (v : bool)
| CFloat64 (v : float64)
| CTime (v : Time)
| CBytes (v : GoBytes)
| CNullTime (v : NullTime)
| CNullBytes (v : NullBytes).

Abbreviation store := (gmap loc Cell).

(** What a call returning [error] leaves behind: the store and the error
    ([None] for a nil error). *)
Definition Outcome : Type := Panics (store * option Error).

(** The dynamic type and value of a destination. A destination whose type
    implements [sql.Scanner] is given by its [Scan] method. *)
Inductive Dest : Type :=
| DNil
| DPtrInt64 (d : option loc)
| DPtrString (d : option loc)
| DPtrBool (d : option loc)
| DPtrFloat64 (d : option loc)
| DPtrTime (d : option loc)
| DPtrBytes (d : option loc)
| DScanner (type_name : string) (Scan : Src -> store -> Outcome)
| DOther (type_name : string).

(** [%T] of a destination. *)
Definition Dest_type (dest : Dest) : string :=
  match dest with
  | DNil => "<nil>"
  | DPtrInt64 _ => "*int64"
  | DPtrString _ => "*string"
  | DPtrBool _ => "*bool"
  | DPtrFloat64 _ => "*float64"
  | DPtrTime _ => "*time.Time"
  | DPtrBytes _ => "*[]uint8"
  | DScanner type_name _ => type_name
  | DOther type_name => type_name
  end.

(** [dest.(sql.Scanner)]. *)
Definition as_Scanner (dest : Dest) : option (Src -> store -> Outcome) :=
  match dest with
  | DScanner _ Scan => Some Scan
  | _ => None
  end.

(** ** Nullable wrappers *)

(** [NullTime.Scan]: [nt.Time, nt.Valid = value.(time.Time)]. *)
Definition NullTime_Scan (nt : NullTime) (value : Src) : NullTime * option Error :=
  match value with
  | STime t => (mkNullTime t true, None)
  | _ => (mkNullTime time_zero false, None)
  end.

(** [NullTime.Value]. *)
Definition NullTime_Value (nt : NullTime) : Src * option Error :=
  if negb (NullTime_Valid nt) then (SNil, None) else (STime (NullTime_Time nt), None).

(** [NullBytes.Scan]: [nb.Bytes, nb.Valid = value.([]byte)]. *)
Definition NullBytes_Scan (nb : NullBytes) (value : Src) : NullBytes * option Error :=
  match value with
  | SBytes b => (mkNullBytes b true, None)
  | _ => (mkNullBytes None false, None)
  end.

(** [NullBytes.Value]. *)
Definition NullBytes_Value (nb : NullBytes) : Src * option Error :=
  if negb (NullBytes_Valid nb) then (SNil, None) else (SBytes (NullBytes_Bytes nb), None).

(** A [*NullTime] as a destination: its [Scan] updates the cell it points
    to; on the nil pointer the assignment to [nt.Time] panics. *)
Definition nil_deref : string :=
  "runtime error: invalid memory address or nil pointer dereference".

Definition DPtrNullTime (d : option loc) : Dest :=
  DScanner "*db.NullTime" (fun value st =>
    match d with
    | None => Panic nil_deref
    | Some l =>
        let old := match st !! l with
                   | Some (CNullTime nt) => nt
                   | _ => mkNullTime time_zero false
                   end in
        let '(nt, err) := NullTime_Scan old value in
        Done (<[l := CNullTime nt]> st, err)
    end).

Definition DPtrNullBytes (d : option loc) : Dest :=
  DScanner "*db.NullBytes" (fun value st =>
    match d with
    | None => Panic nil_deref
    | Some l =>
        let old := match st !! l with
                   | Some (CNullBytes nb) => nb
                   | _ => mkNullBytes None false
                   end in
        let '(nb, err) := NullBytes_Scan old value in
        Done (<[l := CNullBytes nb]> st, err)
    end).

(** ** convertValue *)

(** [if d == nil { return ErrNilPtr }; *d = c; return nil]. *)
Definition assign (d : option loc) (c : Cell) (st : store) : store * option Error :=
  match d with
  | None => (st, Some ErrNilPtr)
  | Some l => (<[l := c]> st, None)
  end.

(** [src.(driver.Valuer)] followed by [src, _ = s.Value()]: [None] when the
    source is no Valuer. A pointer to a wrapper has the wrapper's methods;
    calling one through the nil pointer panics. *)
Definition as_Valuer (src : Src) : option (Panics Src) :=
  match src with
  | SNullTime nt => Some (Done (fst (NullTime_Value nt)))
  | SPtrNullTime (Some nt) => Some (Done (fst (NullTime_Value nt)))
  | SPtrNullTime None => Some (Panic nil_deref)
  | SNullBytes nb => Some (Done (fst (NullBytes_Value nb)))
  | SPtrNullBytes (Some nb) => Some (Done (fst (NullBytes_Value nb)))
  | SPtrNullBytes None => Some (Panic nil_deref)
  | SValuer value => Some (Done value)
  | SValuerPanics msg => Some (Panic msg)
  | _ => None
  end.

(** The arms of the type switch on the source. Each gives [None] when the
    inner switch on the destination has no case for it: control then leaves
    the outer switch and reaches the final [fmt.Errorf]. *)

(** [case int64:] *)
Definition convert_int64 (dest : Dest) (s : Z) (st : store)
  : option (store * option Error) :=
  match dest with
  | DPtrInt64 d => Some (assign d (CInt64 s) st)
  | DPtrString d => Some (assign d (CString (fmt_d s)) st)
  | DPtrBool d =>
      Some (match d with
            | None => (st, Some ErrNilPtr)
            | Some l =>
                if (s =? 0)%Z then (<[l := CBool false]> st, None)
                else if (s =? 1)%Z then (<[l := CBool true]> st, None)
                else (st, Some (ErrIntToBool s))
            end)
  | DPtrFloat64 d => Some (assign d (CFloat64 (float64_of_int64 s)) st)
  | _ => None
  end.

(** [case float64:] *)
Definition convert_float64 (dest : Dest) (s : float64) (st : store)
  : option (store * option Error) :=
  match dest with
  | DPtrFloat64 d => Some (assign d (CFloat64 s) st)
  | DPtrString d => Some (assign d (CString (fmt_Sprint_float64 s)) st)
  | DPtrBool d =>
      Some (match d with
            | None => (st, Some ErrNilPtr)
            | Some l =>
                if float64_eqb s float64_zero then (<[l := CBool false]> st, None)
                else if float64_eqb s float64_one then (<[l := CBool true]> st, None)
                else (st, Some (ErrFloatToBool s))
            end)
  | _ => None
  end.

(** [fmt.Sprint] on a [bool]. *)
Definition fmt_Sprint_bool (b : bool) : string := if b then "true" else "false".

(** [case bool:] *)
Definition convert_bool (dest : Dest) (s : bool) (st : store)
  : option (store * option Error) :=
  match dest with
  | DPtrBool d => Some (assign d (CBool s) st)
  | DPtrString d => Some (assign d (CString (fmt_Sprint_bool s)) st)
  | DPtrFloat64 d =>
      Some (assign d (CFloat64 (if s then float64_one else float64_zero)) st)
  | DPtrInt64 d => Some (assign d (CInt64 (if s then 1 else 0)%Z) st)
  | _ => None
  end.

(** [value, err := parse(s); if err != nil { return err } else { *d = value;
    return nil }], after the nil check on [d]. *)
Definition assign_parsed {A} (d : option loc) (parsed : string + A)
    (cell : A -> Cell) (st : store) : store * option Error :=
  match d with
  | None => (st, Some ErrNilPtr)
  | Some l =>
      match parsed with
      | inl err => (st, Some (ErrLib err))
      | inr value => (<[l := cell value]> st, None)
      end
  end.

Definition layout_full : string := "2006-01-02 15:04:05".
Definition layout_date : string := "2006-01-02".

(** The two attempts of the [*time.Time] case: the full layout, and on its
    failure the date-only layout, whose error is the one returned. *)
Definition parse_time_layouts (s : string) : string + Time :=
  match time_Parse layout_full s with
  | inr value => inr value
  | inl _ => time_Parse layout_date s
  end.

(** [case string:] *)
Definition convert_string (dest : Dest) (s : string) (st : store)
  : option (store * option Error) :=
  match dest with
  | DPtrString d => Some (assign d (CString s) st)
  | DPtrInt64 d => Some (assign_parsed d (strconv_ParseInt s) CInt64 st)
  | DPtrFloat64 d => Some (assign_parsed d (strconv_ParseFloat s) CFloat64 st)
  | DPtrBool d => Some (assign_parsed d (strconv_ParseBool s) CBool st)
  | DPtrTime d => Some (assign_parsed d (parse_time_layouts s) CTime st)
  | _ => None
  end.

(** [case time.Time:] *)
Definition convert_time (dest : Dest) (s : Time) (st : store)
  : option (store * option Error) :=
  match dest with
  | DPtrString d => Some (assign d (CString (time_Format s layout_full)) st)
  | DPtrTime d => Some (assign d (CTime s) st)
  | _ => None
  end.

(** The final [return fmt.Errorf("db: convertValue: type error: ...")] of the
    call whose source is [src]. *)
Definition type_error (dest : Dest) (src : Src) (st : store) : Outcome :=
  Done (st, Some (ErrConvertType src (Dest_type dest))).

Definition or_type_error (dest : Dest) (src : Src) (st : store)
    (r : option (store * option Error)) : Outcome :=
  match r with
  | Some out => Done out
  | None => type_error dest src st
  end.

(** [convertValue(dest, v)] for a source [v] of one of the five value types
    that are neither a Valuer nor a pointer, and a destination that is no
    Scanner: the arm of [v]'s type, then the final error. The recursive
    calls of [convertValue] all have this shape. *)
Definition convert_plain (dest : Dest) (src : Src) (st : store) : Outcome :=
  match src with
  | SInt64 s => or_type_error dest src st (convert_int64 dest s st)
  | SFloat64 s => or_type_error dest src st (convert_float64 dest s st)
  | SBool s => or_type_error dest src st (convert_bool dest s st)
  | SString s => or_type_error dest src st (convert_string dest s st)
  | STime s => or_type_error dest src st (convert_time dest s st)
  | _ => type_error dest src st
  end.

(** [case []byte:] with its [default: return convertValue(dest, string(s))]. *)
Definition convert_bytes (dest : Dest) (s : GoBytes) (st : store) : Outcome :=
  match dest with
  | DPtrBytes d => Done (assign d (CBytes s) st)
  | _ => convert_plain dest (SString (string_of_bytes s)) st
  end.

(** [return convertValue(dest, *s)] on a pointer source. *)
Definition deref {A} (p : option A) (k : A -> Outcome) : Outcome :=
  match p with
  | None => Panic nil_deref
  | Some v => k v
  end.

(** [convertValue]. *)
Definition convertValue (dest : Dest) (src : Src) (st : store) : Outcome :=
  pbind (match as_Valuer src with
         | Some value => value
         | None => Done src
         end)
    (fun src =>
       match as_Scanner dest with
       | Some Scan => Scan src st
       | None =>
           match src with
           | SPtrInt64 p => deref p (fun s => convert_plain dest (SInt64 s) st)
           | SPtrBool p => deref p (fun s => convert_plain dest (SBool s) st)
           | SPtrFloat64 p => deref p (fun s => convert_plain dest (SFloat64 s) st)
           | SPtrString p => deref p (fun s => convert_plain dest (SString s) st)
           | SPtrTime p => deref p (fun s => convert_plain dest (STime s) st)
           | SPtrBytes p => deref p (fun s => convert_bytes dest s st)
           | SBytes s => convert_bytes dest s st
           | SInt64 _ | SFloat64 _ | SBool _ | SString _ | STime _ =>
               convert_plain dest src st
           | _ => type_error dest src st
           end
       end).

(** ** Fields and tables *)

(** A call returning [(value, error)] that may panic. *)
Definition Res (A : Type) : Type := Panics (Error + A).

Definition ret {A} (a : A) : Res A := Done (inr a).
Definition fail {A} (e : Error) : Res A := Done (inl e).

Definition rbind {A B} (m : Res A) (k : A -> Res B) : Res B :=
  match m with
  | Done (inr a) => k a
  | Done (inl e) => Done (inl e)
  | Panic msg => Panic msg
  end.

Notation "x <- m ;; k" := (rbind m (fun x => k))
  (at level 100, m at next level, right associativity).

Record FieldDefault : Type := mkFieldDefault {
  FieldDefault_Null : bool;
  FieldDefault_Value : string;
  FieldDefault_CurrentTimestamp : bool
}.

Record Field : Type := mkField {
  Field_Name : string;
  Field_FullName : string;
  Field_Type : FieldType;
  Field_Null : bool;
  Field_Key : string;
  Field_Default : FieldDefault;
  Field_Extra : string;
  Field_Comment : string
}.

Record Table : Type := mkTable {
  Table_DbName : string;
  Table_TbName : string;
  Table_Fields : list Field;
  Table_PrimaryKey : string;
  Table_UniqueIndex : list string;
  Table_Fullname : string;
  Table_sqlInsert : string;
  Table_sqlSelect : string;
  Table_sqlDelete : string;
  Table_sqlUpdate : string;
  Table_sqlSelectCount : string;
  Table_sqlArgMark : list string;
  Table_Len : Z
}.

(** [FieldType.Scan]: a source that is neither [[]byte] nor [string] is an
    error; [parseFieldType] may panic. *)
Definition FieldType_Scan (t : FieldType) (v : Src) : Panics (FieldType * option Error) :=
  let parsed (str : string) :=
    pbind (parseFieldType str) (fun '(name, value, length) =>
      Done (mkFieldType name value length, None)) in
  match v with
  | SBytes buf => parsed (string_of_bytes buf)
  | SString str => parsed str
  | _ => Done (t, Some (ErrNotAcceptType v))
  end.

(** [FieldDefault.Scan]: the assertion [v.([]byte)] panics on a source that
    is neither nil nor [[]byte]. *)
Definition FieldDefault_Scan (d : FieldDefault) (v : Src)
  : Panics (FieldDefault * option Error) :=
  match v with
  | SNil => Done (mkFieldDefault true "NULL" (FieldDefault_CurrentTimestamp d), None)
  | SBytes buf =>
      let value := string_of_bytes buf in
      Done (mkFieldDefault false value
              (if String.eqb value "CURRENT_TIMESTAMP" then true
               else FieldDefault_CurrentTimestamp d),
            None)
  | _ => Panic "interface conversion: interface {} is not []uint8"
  end.

(** ** GetTable *)

(** [convertAssign] of [database/sql] into a [*string], [*int64] and
    [*float64] destination: the text of its error, or the value. *)
Class SqlRuntime : Type := {
  sql_convertAssign_string : Src -> string + string;
  sql_convertAssign_int64 : Src -> string + Z;
  sql_convertAssign_float64 : Src -> string + float64
}.

Context `{SqlRuntime}.

(** One row of the catalog query, as the driver delivers it. *)
Record ColumnRow : Type := mkColumnRow {
  COLUMN_NAME : Src;
  COLUMN_TYPE : Src;
  COLUMN_DEFAULT : Src;
  IS_NULLABLE : Src;
  COLUMN_KEY : Src;
  EXTRA : Src;
  COLUMN_COMMENT : Src
}.

(** What [Query] gives: its error, or the rows that [rows.Next()] delivers
    followed by the value of [rows.Err()]. *)
Record Cursor : Type := mkCursor {
  Cursor_rows : list ColumnRow;
  Cursor_Err : option string
}.

(** [rows.Scan] on a [*string]: an error is wrapped with the column index. *)
Definition scan_string (index : nat) (v : Src) : Res string :=
  match sql_convertAssign_string v with
  | inl msg => fail (ErrScanColumn index (ErrLib msg))
  | inr s => ret s
  end.

(** [rows.Scan] on a destination that is a Scanner. *)
Definition scan_Scanner {A} (index : nat) (r : Panics (A * option Error)) : Res A :=
  match r with
  | Panic msg => Panic msg
  | Done (_, Some e) => fail (ErrScanColumn index e)
  | Done (a, None) => ret a
  end.

(** [var row Field; var nullable string; err = rows.Scan(&row.Name,
    &row.Type, &row.Default, &nullable, &row.Key, &row.Extra,
    &row.Comment)]. *)
Definition scan_row (cols : ColumnRow) : Res (Field * string) :=
  name <- scan_string 0 (COLUMN_NAME cols) ;;
  type <- scan_Scanner 1 (FieldType_Scan (mkFieldType "" 0 0) (COLUMN_TYPE cols)) ;;
  default <- scan_Scanner 2
    (FieldDefault_Scan (mkFieldDefault false "" false) (COLUMN_DEFAULT cols)) ;;
  nullable <- scan_string 3 (IS_NULLABLE cols) ;;
  key <- scan_string 4 (COLUMN_KEY cols) ;;
  extra <- scan_string 5 (EXTRA cols) ;;
  comment <- scan_string 6 (COLUMN_COMMENT cols) ;;
  ret (mkField name "" type false key default extra comment, nullable).

(** The assignments of the loop body to the fields of [table]. *)
Definition append_field (table : Table) (row : Field) : Table :=
  mkTable (Table_DbName table) (Table_TbName table)
    (Table_Fields table ++ [row])
    (Table_PrimaryKey table) (Table_UniqueIndex table)
    (Table_Fullname table) (Table_sqlInsert table) (Table_sqlSelect table)
    (Table_sqlDelete table) (Table_sqlUpdate table) (Table_sqlSelectCount table)
    (Table_sqlArgMark table ++ ["?"])
    (Table_Len table).

Definition classify_key (table : Table) (row : Field) : Table :=
  if String.eqb (Field_Key row) "PRI" then
    mkTable (Table_DbName table) (Table_TbName table) (Table_Fields table)
      (Field_Name row) (Table_UniqueIndex table)
      (Table_Fullname table) (Table_sqlInsert table) (Table_sqlSelect table)
      (Table_sqlDelete table) (Table_sqlUpdate table) (Table_sqlSelectCount table)
      (Table_sqlArgMark table) (Table_Len table)
  else if String.eqb (Field_Key row) "UNI" then
    mkTable (Table_DbName table) (Table_TbName table) (Table_Fields table)
      (Table_PrimaryKey table) (Table_UniqueIndex table ++ [Field_Name row])
      (Table_Fullname table) (Table_sqlInsert table) (Table_sqlSelect table)
      (Table_sqlDelete table) (Table_sqlUpdate table) (Table_sqlSelectCount table)
      (Table_sqlArgMark table) (Table_Len table)
  else table.

(** [for rows.Next() { ... }]: the table and the list [keys] after the rows. *)
Fixpoint GetTable_loop (rows : list ColumnRow) (table : Table) (keys : list string)
  : Res (Table * list string) :=
  match rows with
  | [] => ret (table, keys)
  | cols :: rest =>
      scanned <- scan_row cols ;;
      let '(row, nullable) := scanned in
      let row :=
        mkField (Field_Name row)
          (Table_TbName table ++ ".`" ++ Field_Name row ++ "`")
          (Field_Type row) (parseNullable nullable) (Field_Key row)
          (Field_Default row) (Field_Extra row) (Field_Comment row) in
      let keys := (keys ++ [Field_FullName row])%list in
      GetTable_loop rest (classify_key (append_field table row) row) keys
  end.

(** The statements after the loop, from [table.Len = len(table.Fields)]. *)
Definition GetTable_finish (tablename : string) (table : Table) (keys : list string)
  : Res Table :=
  let Len := Z.of_nat (length (Table_Fields table)) in
  if (Len =? 0)%Z then fail (ErrColumnsNoFound tablename)
  else
    let Fullname := Table_DbName table ++ "." ++ Table_TbName table in
    let strKeys := strings_Join keys "," in
    ret (mkTable (Table_DbName table) (Table_TbName table) (Table_Fields table)
           (Table_PrimaryKey table) (Table_UniqueIndex table)
           Fullname
           ("INSERT INTO " ++ Fullname)
           ("SELECT " ++ strKeys ++ " FROM " ++ Fullname ++ " ")
           ("DELETE FROM " ++ Fullname)
           ("UPDATE " ++ Fullname)
           ("SELECT COUNT(" ++ Table_PrimaryKey table ++ ") FROM " ++ Fullname)
           (Table_sqlArgMark table)
           Len).

(** [GetTable], given the package variable [db_name] and what the catalog
    query [Query(query, db_name, tablename)] gives. *)
Definition GetTable (db_name : string) (query_result : string + Cursor)
    (tablename : string) : Res Table :=
  match query_result with
  | inl err => fail (ErrLib err)
  | inr rows =>
      let table := mkTable db_name tablename [] "" [] "" "" "" "" "" "" [] 0 in
      looped <- GetTable_loop (Cursor_rows rows) table [] ;;
      let '(table, keys) := looped in
      match Cursor_Err rows with
      | Some err => fail (ErrLib err)
      | None => GetTable_finish tablename table keys
      end
  end.

(** ** Row.Scan *)

Definition index_out_of_range : string := "runtime error: index out of range".

(** A scratch cell of [makeNullableScans]: an [sql.NullInt64], a [NullTime],
    an [sql.NullString], an [sql.NullFloat64] or a [NullBytes]. *)
Inductive Scratch : Type :=
| ScratchInt64 (Int64 : Z) (Valid : bool)
| ScratchTime (nt : NullTime)
| ScratchString (String : string) (Valid : bool)
| ScratchFloat64 (Float64 : float64) (Valid : bool)
| ScratchBytes (nb : NullBytes).

(** The pointer to a scratch cell, as a source: each is a Valuer. The
    [Value()] of the three wrappers of [database/sql] yields nil when
    [Valid] is false and the payload otherwise. *)
Definition Scratch_src (cell : Scratch) : Src :=
  match cell with
  | ScratchInt64 v valid => SValuer (if valid then SInt64 v else SNil)
  | ScratchTime nt => SPtrNullTime (Some nt)
  | ScratchString v valid => SValuer (if valid then SString v else SNil)
  | ScratchFloat64 v valid => SValuer (if valid then SFloat64 v else SNil)
  | ScratchBytes nb => SPtrNullBytes (Some nb)
  end.

(** The [new(...)] that the switch of [makeNullableScans] picks for a type
    code. *)
Definition new_nullable (code : Z) : Scratch :=
  if case_int code [TypeInt; TypeBigint] then ScratchInt64 0 false
  else if case_int code [TypeDate; TypeDatetime; TypeYear; TypeTime; TypeTimestamp]
  then ScratchTime (mkNullTime time_zero false)
  else if case_int code [TypeChar; TypeVarchar; TypeText; TypeMediumText; TypeLongtext]
  then ScratchString "" false
  else if case_int code [TypeFloat; TypeDouble; TypeDecimal]
  then ScratchFloat64 float64_zero false
  else ScratchBytes (mkNullBytes None false).

(** [for i := range t.Fields { scans[i] = new(...) }], from index [i]. *)
Fixpoint fill_scans (fields : list Field) (i : nat) (scans : list (option Scratch))
  : Panics (list (option Scratch)) :=
  match fields with
  | [] => Done scans
  | field :: rest =>
      if (i <? length scans)%nat
      then fill_scans rest (S i)
             (<[i := Some (new_nullable (FieldType_Value (Field_Type field)))]> scans)
      else Panic index_out_of_range
  end.

(** [Table.makeNullableScans]: [make([]interface{}, t.Len)] and the loop; an
    entry that the loop does not reach stays nil ([None]). *)
Definition makeNullableScans (t : Table) : Panics (list (option Scratch)) :=
  if (Table_Len t <? 0)%Z then Panic "runtime error: makeslice: len out of range"
  else fill_scans (Table_Fields t) 0 (replicate (Z.to_nat (Table_Len t)) None).

(** What [database/sql] does with one column value and one scratch cell:
    the [Scan] of the cell. The wrappers of [database/sql] take nil as "no
    value" and anything else through [convertAssign]. *)
Definition scan_nullable (index : nat) (cell : Scratch) (value : Src) : Res Scratch :=
  let converted {A} (r : string + A) (k : A -> Scratch) : Res Scratch :=
    match r with
    | inl msg => fail (ErrScanColumn index (ErrLib msg))
    | inr v => ret (k v)
    end in
  match cell with
  | ScratchTime nt =>
      nt' <- scan_Scanner index (Done (NullTime_Scan nt value)) ;; ret (ScratchTime nt')
  | ScratchBytes nb =>
      nb' <- scan_Scanner index (Done (NullBytes_Scan nb value)) ;; ret (ScratchBytes nb')
  | ScratchInt64 _ _ =>
      if is_nil value then ret (ScratchInt64 0 false)
      else converted (sql_convertAssign_int64 value) (fun v => ScratchInt64 v true)
  | ScratchString _ _ =>
      if is_nil value then ret (ScratchString "" false)
      else converted (sql_convertAssign_string value) (fun v => ScratchString v true)
  | ScratchFloat64 _ _ =>
      if is_nil value then ret (ScratchFloat64 float64_zero false)
      else converted (sql_convertAssign_float64 value) (fun v => ScratchFloat64 v true)
  end.

Fixpoint scan_columns (index : nat) (scans : list (option Scratch)) (values : list Src)
  : Res (list Scratch) :=
  match scans, values with
  | cell :: scans', value :: values' =>
      match cell with
      | None => fail (ErrScanColumn index (ErrLib "destination not a pointer"))
      | Some cell =>
          cell' <- scan_nullable index cell value ;;
          rest <- scan_columns (S index) scans' values' ;;
          ret (cell' :: rest)
      end
  | _, _ => ret []
  end.

(** [r.Row.Scan(scans...)] on a row delivered by the driver: the number of
    destinations is checked first, then the columns are scanned in order.
    The result is the state of the scratch cells. *)
Definition sql_Row_Scan (scans : list (option Scratch)) (values : list Src)
  : Res (list Scratch) :=
  if (length scans =? length values)%nat then scan_columns 0 scans values
  else fail (ErrLib "sql: wrong number of destination arguments in Scan").

(** [dest[i] == nil]. *)
Definition is_nil_dest (dest : Dest) : bool :=
  match dest with
  | DNil => true
  | _ => false
  end.

(** The loop of [Row.Scan] over the destinations, from index [i]. *)
Fixpoint Row_Scan_loop (scans : list Scratch) (i : nat) (dest : list Dest) (st : store)
  : Outcome :=
  match dest with
  | [] => Done (st, None)
  | d :: rest =>
      if is_nil_dest d then Row_Scan_loop scans (S i) rest st
      else
        match scans !! i with
        | None => Panic index_out_of_range
        | Some cell =>
            pbind (convertValue d (Scratch_src cell) st) (fun '(st', err) =>
              match err with
              | Some e => Done (st', Some e)
              | None => Row_Scan_loop scans (S i) rest st'
              end)
        end
  end.

(** [Row.Scan], given what the single-row cursor holds: its deferred error,
    or the column values of its row. *)
Definition Row_Scan (t : Table) (row : string + list Src) (dest : list Dest)
    (st : store) : Outcome :=
  pbind (makeNullableScans t) (fun scans =>
    match row with
    | inl err => Done (st, Some (ErrLib err))
    | inr values =>
        match sql_Row_Scan scans values with
        | Panic msg => Panic msg
        | Done (inl err) => Done (st, Some err)
        | Done (inr cells) => Row_Scan_loop cells 0 dest st
        end
    end).

(** ** Query builder *)

Definition slice_out_of_range : string := "runtime error: slice bounds out of range".

(** The loop shared by every positional operation:
    [for i := range args { if args[i] == nil { continue };
       keys = append(keys, t.Fields[i].FullName + suffix);
       params = append(params, args[i]) }],
    started at index [i] with the lists built so far. [t.Fields[i]] panics
    when [i] is not an index of the field list. *)
Fixpoint positional (fields : list Field) (suffix : string) (i : nat)
    (args : list Src) (keys : list string) (params : list Src)
  : Panics (list string * list Src) :=
  match args with
  | [] => Done (keys, params)
  | arg :: rest =>
      if is_nil arg then positional fields suffix (S i) rest keys params
      else
        match fields !! i with
        | None => Panic index_out_of_range
        | Some field =>
            positional fields suffix (S i) rest
              (keys ++ [(Field_FullName field ++ suffix)%string])%list
              (params ++ [arg])%list
        end
  end.

(** [s[:n]]; the capacity of the slice is taken to be its length. *)
Definition slice_to {A} (s : list A) (n : nat) : Panics (list A) :=
  if (n <=? length s)%nat then Done (take n s) else Panic slice_out_of_range.

(** A statement handed to the executor: its text and its arguments. *)
Definition Statement : Type := string * list Src.

(** [Table.Add]: the call [Exec(query, listParam...)] it makes; its result
    is what [Exec] gives. *)
Definition Table_Add (t : Table) (values : list Src) : Panics Statement :=
  pbind (positional (Table_Fields t) "" 0 values [] []) (fun '(listcolname, listParam) =>
  pbind (slice_to (Table_sqlArgMark t) (length listParam)) (fun marks =>
  Done (Table_sqlInsert t ++ " (" ++ strings_Join listcolname ", "
        ++ ") VALUES (" ++ strings_Join marks ", " ++ ")",
        listParam))).

(** [Table.Del]: the call to [Exec]. *)
Definition Table_Del (t : Table) (args : list Src) : Panics Statement :=
  pbind (positional (Table_Fields t) "=?" 0 args [] []) (fun '(listwhere, listparam) =>
  Done (Table_sqlDelete t ++ " WHERE " ++ strings_Join listwhere " AND " ++ " LIMIT 1",
        listparam)).

(** [Table.Get]: the call to [QueryRow]. *)
Definition Table_Get (t : Table) (args : list Src) : Panics Statement :=
  pbind (positional (Table_Fields t) "=?" 0 args [] []) (fun '(listwhere, listparam) =>
  Done (Table_sqlSelect t ++ " WHERE " ++ strings_Join listwhere " AND " ++ " limit 1",
        listparam)).

(** [Table.GetMany]: the call to [Query]. *)
Definition Table_GetMany (t : Table) (args : list Src) : Panics Statement :=
  pbind (positional (Table_Fields t) "=?" 0 args [] []) (fun '(listwhere, listparam) =>
  Done (Table_sqlSelect t ++ " WHERE " ++ strings_Join listwhere " AND ", listparam)).

(** [Table.Find]: the call to [QueryRow]. *)
Definition Table_Find (t : Table) (args : list Src) : Panics Statement :=
  pbind (positional (Table_Fields t) "=?" 0 args [] []) (fun '(listwhere, listparam) =>
  Done (Table_sqlSelect t ++ " WHERE " ++ strings_Join listwhere " OR " ++ " limit 1",
        listparam)).

(** [Table.FindMany]: the call to [Query]. *)
Definition Table_FindMany (t : Table) (args : list Src) : Panics Statement :=
  pbind (positional (Table_Fields t) "=?" 0 args [] []) (fun '(listwhere, listparam) =>
  Done (Table_sqlSelect t ++ " WHERE " ++ strings_Join listwhere " OR ", listparam)).

(** [Table.GetMany], [Table.Del] and the other operations above share the
    loop; the remaining ones follow. *)

(** [Table.CountBy]: the call to [QueryRow]. *)
Definition Table_CountBy (t : Table) (args : list Src) : Panics Statement :=
  pbind (positional (Table_Fields t) "=?" 0 args [] []) (fun '(keys, param) =>
  Done (Table_sqlSelectCount t ++ " WHERE " ++ strings_Join keys " AND " ++ " ", param)).

Record Setter : Type := mkSetter {
  Setter_t : Table;
  Setter_query : string;
  Setter_args : list Src
}.

(** [Table.Update]. *)
Definition Table_Update (t : Table) (args : list Src) : Panics Setter :=
  pbind (positional (Table_Fields t) "=?" 0 args [] []) (fun '(listwhere, listparam) =>
  Done (mkSetter t ("WHERE " ++ strings_Join listwhere " AND " ++ " limit 1") listparam)).

(** [Table.UpdateMany]. *)
Definition Table_UpdateMany (t : Table) (args : list Src) : Panics Setter :=
  pbind (positional (Table_Fields t) "=?" 0 args [] []) (fun '(listwhere, listparam) =>
  Done (mkSetter t ("WHERE " ++ strings_Join listwhere " AND ") listparam)).

(** [Setter.Values]: the call [Exec(strSql, append(listvalue, s.args...)...)]. *)
Definition Setter_Values (s : Setter) (values : list Src) : Panics Statement :=
  pbind (positional (Table_Fields (Setter_t s)) "=?" 0 values [] [])
    (fun '(listkey, listvalue) =>
  Done (Table_sqlUpdate (Setter_t s) ++ " SET " ++ strings_Join listkey ", "
        ++ " " ++ Setter_query s,
        (listvalue ++ Setter_args s)%list)).

(** ** Row.Slice and Row.Map *)

Definition zero_Value_Interface : string :=
  "reflect: call of reflect.Value.Interface on zero Value".

(** [parseValue]: the canonical value of a Valuer, nil for nil, and
    otherwise [reflect.Indirect(reflect.ValueOf(src)).Interface()]: what a
    pointer points to, and the value itself when it is no pointer. On the
    nil pointer [Indirect] gives the zero [Value], on which [Interface]
    panics. A source of a type that [Src] does not name ([SValuer],
    [SValuerPanics], [SOther]) is taken to be no pointer. *)
Definition parseValue (src : Src) : Panics Src :=
  let indirect {A} (p : option A) (k : A -> Src) : Panics Src :=
    match p with
    | Some v => Done (k v)
    | None => Panic zero_Value_Interface
    end in
  pbind (match as_Valuer src with
         | Some value => value
         | None => Done src
         end)
    (fun src =>
       match src with
       | SNil => Done SNil
       | SPtrInt64 p => indirect p SInt64
       | SPtrBool p => indirect p SBool
       | SPtrFloat64 p => indirect p SFloat64
       | SPtrString p => indirect p SString
       | SPtrTime p => indirect p STime
       | SPtrBytes p => indirect p SBytes
       | SPtrNullTime p => indirect p SNullTime
       | SPtrNullBytes p => indirect p SNullBytes
       | _ => Done src
       end).

(** [for i := range scans { data[i] = parseValue(scans[i]) }], from index
    [i]: the right-hand side is evaluated before the index is checked. *)
Fixpoint parseSlice_loop (scans : list Src) (i : nat) (data : list Src)
  : Panics (list Src) :=
  match scans with
  | [] => Done data
  | scan :: rest =>
      pbind (parseValue scan) (fun v =>
        if (i <? length data)%nat
        then parseSlice_loop rest (S i) (<[i := v]> data)
        else Panic index_out_of_range)
  end.

(** [Table.parseSlice]. *)
Definition parseSlice (t : Table) (scans : list Src) : Panics (list Src) :=
  if (Table_Len t <? 0)%Z then Panic "runtime error: makeslice: len out of range"
  else parseSlice_loop scans 0 (replicate (Z.to_nat (Table_Len t)) SNil).

(** [for i := range t.Fields { data[t.Fields[i].Name] = parseValue(scans[i]) }],
    from index [i]. *)
Fixpoint parseMap_loop (fields : list Field) (i : nat) (scans : list Src)
    (data : gmap string Src) : Panics (gmap string Src) :=
  match fields with
  | [] => Done data
  | field :: rest =>
      match scans !! i with
      | None => Panic index_out_of_range
      | Some scan =>
          pbind (parseValue scan) (fun v =>
            parseMap_loop rest (S i) scans (<[Field_Name field := v]> data))
      end
  end.

(** [Table.parseMap]. *)
Definition parseMap (t : Table) (scans : list Src) : Panics (gmap string Src) :=
  parseMap_loop (Table_Fields t) 0 scans ∅.

(** The first phase shared by [Row.Scan], [Row.Slice] and [Row.Map]: the
    scratch cells after [r.Row.Scan(scans...)], or its error. *)
Definition Row_scratch (t : Table) (row : string + list Src) : Res (list Scratch) :=
  pbind (makeNullableScans t) (fun scans =>
    match row with
    | inl err => fail (ErrLib err)
    | inr values => sql_Row_Scan scans values
    end).

(** [Row.Slice]. *)
Definition Row_Slice (t : Table) (row : string + list Src) : Res (list Src) :=
  cells <- Row_scratch t row ;;
  pbind (parseSlice t (map Scratch_src cells)) (fun data => ret data).

(** [Row.Map]. *)
Definition Row_Map (t : Table) (row : string + list Src) : Res (gmap string Src) :=
  cells <- Row_scratch t row ;;
  pbind (parseMap t (map Scratch_src cells)) (fun data => ret data).

(** ** Properties stated in the words of the specification *)

(** The fields at the non-nil positions of a positional list, in field
    order, each with its argument. *)
Fixpoint selected (fields : list Field) (args : list Src) : list (Field * Src) :=
  match fields, args with
  | field :: fields', arg :: args' =>
      if is_nil arg then selected fields' args'
      else (field, arg) :: selected fields' args'
  | _, _ => []
  end.

(** Every non-nil element of the list sits at the position of a field; a
    list no longer than the field list is one such. *)
Definition positions_in_range (fields : list Field) (args : list Src) : Prop :=
  forall (i : nat) (arg : Src),
    args !! i = Some arg -> is_nil arg = false -> (i < length fields)%nat.

(** The invariant of the data model: as many placeholder tokens, all [?],
    as fields, and [Len] their number. *)
Definition Table_invariant (t : Table) : Prop :=
  Table_Len t = Z.of_nat (length (Table_Fields t)) /\
  Table_sqlArgMark t = replicate (length (Table_Fields t)) "?".

(** The number of non-nil elements of a positional list. *)
Definition count_non_nil (args : list Src) : nat :=
  length (filter (fun arg => is_nil arg = false) args).

(** The columns, the [field=?] predicates and the bound arguments of a
    positional list. *)
Definition selected_columns (fields : list Field) (args : list Src) : list string :=
  map (fun fa => Field_FullName (fst fa)) (selected fields args).

Definition selected_predicates (fields : list Field) (args : list Src) : list string :=
  map (fun fa => Field_FullName (fst fa) ++ "=?") (selected fields args).

Definition selected_params (fields : list Field) (args : list Src) : list Src :=
  map snd (selected fields args).

(** The codes of the length-less set of the specification. *)
Definition lengthless_codes : list Z :=
  [TypeDate; TypeDatetime; TypeYear; TypeTime; TypeTimestamp;
   TypeText; TypeMediumText; TypeLongtext].

(** Two ASCII strings that differ in the case of their letters only. *)
Definition equal_fold_ascii (a b : string) : bool :=
  isASCII a && isASCII b
  && String.eqb (string_map lower_byte a) (string_map lower_byte b).

(** The field that one catalog row gives for the table [tablename]: the
    scanned columns, the nullability parsed and the qualified name built. *)
Definition row_field (tablename : string) (cols : ColumnRow) : Res Field :=
  scanned <- scan_row cols ;;
  ret (mkField (Field_Name (fst scanned))
         (tablename ++ ".`" ++ Field_Name (fst scanned) ++ "`")
         (Field_Type (fst scanned)) (parseNullable (snd scanned))
         (Field_Key (fst scanned)) (Field_Default (fst scanned))
         (Field_Extra (fst scanned)) (Field_Comment (fst scanned))).

(** The name of the last field marked [PRI], or the empty string. *)
Definition last_primary (fields : list Field) : string :=
  foldl (fun pk field => if String.eqb (Field_Key field) "PRI" then Field_Name field
                         else pk) "" fields.

(** The names of the fields marked [UNI], in field order. *)
Definition unique_names (fields : list Field) : list string :=
  map Field_Name (filter (fun field => Field_Key field = "UNI") fields).

(** The value that a scratch cell stands for: nil without a value, and the
    payload otherwise. *)
Definition Scratch_value (cell : Scratch) : Src :=
  match cell with
  | ScratchInt64 v valid => if valid then SInt64 v else SNil
  | ScratchTime nt => if NullTime_Valid nt then STime (NullTime_Time nt) else SNil
  | ScratchString v valid => if valid then SString v else SNil
  | ScratchFloat64 v valid => if valid then SFloat64 v else SNil
  | ScratchBytes nb => if NullBytes_Valid nb then SBytes (NullBytes_Bytes nb) else SNil
  end.

(** A source that is a nil pointer of one of the six pointer types of the
    type switch. *)
Definition is_nil_pointer (src : Src) : bool :=
  match src with
  | SPtrInt64 None | SPtrBool None | SPtrFloat64 None
  | SPtrString None | SPtrTime None | SPtrBytes None => true
  | _ => false
  end.

(** The address a destination points to, when it is a non-nil pointer of
    one of the six plain types. *)
Definition Dest_loc (dest : Dest) : option loc :=
  match dest with
  | DPtrInt64 d | DPtrString d | DPtrBool d
  | DPtrFloat64 d | DPtrTime d | DPtrBytes d => d
  | _ => None
  end.

(** The cell has the type the destination points to. *)
Definition Cell_fits (dest : Dest) (c : Cell) : bool :=
  match dest, c with
  | DPtrInt64 _, CInt64 _ | DPtrString _, CString _ | DPtrBool _, CBool _
  | DPtrFloat64 _, CFloat64 _ | DPtrTime _, CTime _ | DPtrBytes _, CBytes _ => true
  | _, _ => false
  end.

(** What an arm of the type switch returns: the store unchanged with an
    error, or one cell of the destination's type written without one. *)
Definition arm_result (dest : Dest) (st : store) (out : store * option Error) : Prop :=
  (fst out = st /\ snd out <> None)
  \/ (snd out = None
      /\ exists (l : loc) (c : Cell),
           Dest_loc dest = Some l /\ Cell_fits dest c = true
           /\ fst out = <[l := c]> st).

(** The source after [src, _ = s.Value()]. *)
Definition unwrap_Valuer (src : Src) : Panics Src :=
  match as_Valuer src with
  | Some value => value
  | None => Done src
  end.

(** The scratch cells of a field list: one per field, of the kind of its
    type code. *)
Definition new_scans (fields : list Field) : list (option Scratch) :=
  map (fun field => Some (new_nullable (FieldType_Value (Field_Type field)))) fields.

(** Nil, or a value of one of the six value types: no pointer and no
    wrapper. *)
Definition is_plain_value (v : Src) : bool :=
  match v with
  | SNil | SInt64 _ | SFloat64 _ | SBool _ | SString _ | SBytes _ | STime _ => true
  | _ => false
  end.


(** A field type as [parseFieldType] makes it, and a default as
    [FieldDefault.Scan] makes it from the zero value. *)
Definition FieldType_parsed (t : FieldType) : Prop :=
  string_forall is_word (FieldType_Name t) = true
  /\ FieldType_Value t ∈ all_type_codes
  /\ (0 <= FieldType_Length t <= maxInt64)%Z.

Definition FieldDefault_scanned (d : FieldDefault) : Prop :=
  if FieldDefault_Null d
  then FieldDefault_Value d = "NULL" /\ FieldDefault_CurrentTimestamp d = false
  else FieldDefault_CurrentTimestamp d
       = String.eqb (FieldDefault_Value d) "CURRENT_TIMESTAMP".

End Db.

Abbreviation store := (gmap loc Cell).

(** ** A sample library instance

    A small instance of [GoRuntime] and [SqlRuntime] on which the
    definitions above can be evaluated. It stands for the Go library only
    on the inputs used below: floats are the integral ones, a time is the
    six numbers of its wall clock, and [sample_time_Parse] knows the two
    layouts of [convertValue] and accepts a text of exactly their shape. *)

Record SampleTime : Type := mkSampleTime {
  st_year : Z; st_month : Z; st_day : Z;
  st_hour : Z; st_minute : Z; st_second : Z
}.

(** Exactly [n] digits at the head of [s]: their value and the rest. *)
Fixpoint read_digits (n : nat) (acc : Z) (s : string) : option (Z * string) :=
  match n with
  | O => Some (acc, s)
  | S n' =>
      match s with
      | String c r =>
          if is_digit c then read_digits n' (acc * 10 + digit_val c) r else None
      | EmptyString => None
      end
  end.

(** The byte [c] at the head of [s]: the rest. *)
Definition read_byte (c : ascii) (s : string) : option string :=
  match s with
  | String c' r => if Ascii.eqb c c' then Some r else None
  | EmptyString => None
  end.

Definition read_date (s : string) : option (Z * Z * Z * string) :=
  '(y, s) ← read_digits 4 0 s;
  s ← read_byte "-" s;
  '(m, s) ← read_digits 2 0 s;
  s ← read_byte "-" s;
  '(d, s) ← read_digits 2 0 s;
  if ((1 <=? m) && (m <=? 12) && (1 <=? d) && (d <=? 31))%Z
  then Some (y, m, d, s) else None.

Definition read_clock (s : string) : option (Z * Z * Z * string) :=
  '(h, s) ← read_digits 2 0 s;
  s ← read_byte ":" s;
  '(mi, s) ← read_digits 2 0 s;
  s ← read_byte ":" s;
  '(se, s) ← read_digits 2 0 s;
  if ((h <? 24) && (mi <? 60) && (se <? 60))%Z
  then Some (h, mi, se, s) else None.

Definition sample_time_Parse (layout value : string) : string + SampleTime :=
  let bad := inl ("parsing time: cannot parse " ++ value ++ " as " ++ layout) in
  if String.eqb layout "2006-01-02 15:04:05" then
    match read_date value with
    | Some (y, m, d, rest) =>
        match read_byte " " rest with
        | Some rest =>
            match read_clock rest with
            | Some (h, mi, se, EmptyString) => inr (mkSampleTime y m d h mi se)
            | _ => bad
            end
        | None => bad
        end
    | None => bad
    end
  else if String.eqb layout "2006-01-02" then
    match read_date value with
    | Some (y, m, d, EmptyString) => inr (mkSampleTime y m d 0 0 0)
    | _ => bad
    end
  else bad.

Definition sample_ParseInt (s : string) : string + Z :=
  let body := match s with
              | String c r => if Ascii.eqb c "-" || Ascii.eqb c "+" then r else s
              | EmptyString => s
              end in
  let neg := match s with String c _ => Ascii.eqb c "-" | EmptyString => false end in
  match body with
  | EmptyString => inl "invalid syntax"
  | _ =>
      match parse_digits 0 body with
      | None => inl "invalid syntax"
      | Some n =>
          let v := (if neg then - n else n)%Z in
          if ((minInt64 <=? v) && (v <=? maxInt64))%Z then inr v
          else inl "value out of range"
      end
  end.

Definition sample_ParseBool (s : string) : string + bool :=
  if existsb (String.eqb s) ["1"; "t"; "T"; "TRUE"; "true"; "True"] then inr true
  else if existsb (String.eqb s) ["0"; "f"; "F"; "FALSE"; "false"; "False"] then inr false
  else inl "invalid syntax".

Definition sample_runtime : GoRuntime := {|
  unicode_ToLower := fun s => s;
  unicode_ToUpper := fun s => s;
  float64 := Z;
  float64_zero := 0%Z;
  float64_one := 1%Z;
  float64_eqb := Z.eqb;
  float64_of_int64 := fun n => n;
  fmt_Sprint_float64 := fmt_d;
  strconv_ParseInt := sample_ParseInt;
  strconv_ParseFloat := sample_ParseInt;
  strconv_ParseBool := sample_ParseBool;
  Time := SampleTime;
  time_zero := mkSampleTime 1 1 1 0 0 0;
  time_Parse := sample_time_Parse;
  time_Format := fun t _ => fmt_d (st_year t)
|}.

Definition sample_convertAssign_float64 (v : @Src sample_runtime) : string + Z :=
  match v with
  | SInt64 n => inr n
  | SFloat64 f => inr f
  | _ => inl "unsupported Scan"
  end.

Definition sample_sql : @SqlRuntime sample_runtime := {|
  sql_convertAssign_string := fun v =>
    match v with
    | SString s => inr s
    | SBytes b => inr (string_of_bytes b)
    | SInt64 n => inr (fmt_d n)
    | SBool b => inr (fmt_Sprint_bool b)
    | _ => inl "unsupported Scan"
    end;
  sql_convertAssign_int64 := fun v =>
    match v with
    | SInt64 n => inr n
    | SString s => sample_ParseInt s
    | SBytes b => sample_ParseInt (string_of_bytes b)
    | _ => inl "unsupported Scan"
    end;
  sql_convertAssign_float64 := sample_convertAssign_float64
|}.

(** A [NullTime] that holds no value. *)
Definition sample_no_time : @NullTime sample_runtime :=
  @mkNullTime sample_runtime (mkSampleTime 1 1 1 0 0 0) false.

(** A store with one integer cell. *)
Definition sample_store : gmap loc (@Cell sample_runtime) :=
  {[ 1%positive := @CInt64 sample_runtime 7 ]}.

(** A three-field table as [GetTable] builds it, from a catalog of the
    columns [id int(11)], [name varchar(255)] and [score int(11)]. *)
Definition sample_column (name type key : string) : @ColumnRow sample_runtime :=
  mkColumnRow (SBytes (Some name)) (SBytes (Some type)) SNil
    (SBytes (Some "YES")) (SBytes (Some key)) (SBytes (Some "")) (SBytes (Some "")).

Definition sample_cursor : @Cursor sample_runtime :=
  mkCursor [sample_column "id" "int(11)" "PRI";
            sample_column "name" "varchar(255)" "UNI";
            sample_column "score" "int(11)" ""] None.

Definition sample_field (name type_name : string) (code len : Z) (key : string)
  : Field :=
  mkField name ("t.`" ++ name ++ "`") (mkFieldType type_name code len) true key
    (mkFieldDefault true "NULL" false) "" "".

Definition sample_table : Table :=
  mkTable "shop" "t"
    [sample_field "id" "int" TypeInt 11 "PRI";
     sample_field "name" "varchar" TypeVarchar 255 "UNI";
     sample_field "score" "int" TypeInt 11 ""]
    "id" ["name"] "shop.t"
    "INSERT INTO shop.t"
    "SELECT t.`id`,t.`name`,t.`score` FROM shop.t "
    "DELETE FROM shop.t" "UPDATE shop.t"
    "SELECT COUNT(id) FROM shop.t"
    ["?"; "?"; "?"] 3.

(** * Properties *)

Example GetTable_sample :
  @GetTable sample_runtime sample_sql "shop" (inr sample_cursor) "t"
  = Done (inr sample_table).
Proof. reflexivity. Qed.

(** ** Type coder *)

Lemma switch_string_lower `{GoRuntime} (typename name : string) :
  isASCII typename = true ->
  string_map lower_byte typename = name ->
  strings_ToLower typename = name.
Proof. intros Hascii Hlow. unfold strings_ToLower. now rewrite Hascii. Qed.

Lemma equal_fold_ascii_lower (a b : string) :
  equal_fold_ascii a b = true ->
  isASCII a = true /\ string_map lower_byte a = string_map lower_byte b.
Proof.
  unfold equal_fold_ascii. intros Hfold.
  apply andb_prop in Hfold as [Hfold Heq].
  apply andb_prop in Hfold as [Ha _].
  apply String.eqb_eq in Heq. auto.
Qed.

(** [parseDbType] gives the code of a name written in any mix of cases. *)
Lemma parseDbType_fold `{GoRuntime} (typename name : string) (code : Z) :
  switch_string (string_map lower_byte name) parseDbType_cases = Some code ->
  equal_fold_ascii typename name = true ->
  parseDbType typename = Done code.
Proof.
  intros Hcase Hfold. apply equal_fold_ascii_lower in Hfold as [Hascii Hlow].
  unfold parseDbType.
  rewrite (switch_string_lower typename _ Hascii Hlow), Hcase. reflexivity.
Qed.

(** C6: for every type code of the closed 15-value set, [formatDbType]
    gives a name that [parseDbType] maps back to the code, and
    [parseDbType] gives the same code for every spelling of that name that
    differs from it in the case of its letters only. *)
Theorem parseDbType_formatDbType `{GoRuntime} (code : Z) :
  code ∈ all_type_codes ->
  exists name : string,
    formatDbType code = Done name /\
    pbind (formatDbType code) parseDbType = Done code /\
    forall typename : string,
      equal_fold_ascii typename name = true -> parseDbType typename = Done code.
Proof.
  intros Hcode. unfold all_type_codes in Hcode.
  repeat (apply elem_of_cons in Hcode as [-> | Hcode]);
    [ .. | now apply elem_of_nil in Hcode ];
    (eexists; split; [ reflexivity | split; [ reflexivity | ] ];
     intros typename Hfold;
     refine (parseDbType_fold typename _ _ _ Hfold); reflexivity).
Qed.

Lemma parseDbType_formatDbType_witness :
  TypeVarchar ∈ all_type_codes /\
  exists name : string,
    formatDbType TypeVarchar = Done name /\
    pbind (formatDbType TypeVarchar) (@parseDbType sample_runtime) = Done TypeVarchar /\
    forall typename : string,
      equal_fold_ascii typename name = true ->
      @parseDbType sample_runtime typename = Done TypeVarchar.
Proof.
  split.
  - unfold all_type_codes. set_solver.
  - apply (@parseDbType_formatDbType sample_runtime TypeVarchar).
    unfold all_type_codes. set_solver.
Defined.

Example parseDbType_mixed_case :
  @parseDbType sample_runtime "VarChar" = Done TypeVarchar.
Proof. reflexivity. Qed.

Example parseFieldType_varchar :
  @parseFieldType sample_runtime "varchar(255)" = Done ("varchar", TypeVarchar, 255%Z).
Proof. reflexivity. Qed.

Example parseFieldType_text :
  @parseFieldType sample_runtime "text" = Done ("text", TypeText, 0%Z).
Proof. reflexivity. Qed.

Lemma case_int_elem_of (x : Z) (labels : list Z) :
  case_int x labels = bool_decide (x ∈ labels).
Proof.
  unfold case_int. induction labels as [| label labels IH]; cbn [existsb].
  - symmetry. apply bool_decide_eq_false_2, not_elem_of_nil.
  - rewrite IH. destruct (Z.eqb_spec x label) as [-> | Hne]; cbn [orb].
    + symmetry. apply bool_decide_eq_true_2. left.
    + apply bool_decide_ext. rewrite elem_of_cons. tauto.
Qed.

(** C7: the DDL type-clause of a field type is the bare type name when its
    code is in the length-less set, and otherwise the type name followed
    by the length in parentheses. *)
Theorem FieldType_ToSql_clause (t : FieldType) :
  FieldType_ToSql t =
    if bool_decide (FieldType_Value t ∈ lengthless_codes)
    then FieldType_Name t
    else FieldType_Name t ++ "(" ++ fmt_d (FieldType_Length t) ++ ")".
Proof.
  unfold FieldType_ToSql. rewrite case_int_elem_of. reflexivity.
Qed.

Example ToSql_varchar :
  FieldType_ToSql (mkFieldType "varchar" TypeVarchar 255) = "varchar(255)".
Proof. reflexivity. Qed.

Example ToSql_datetime :
  FieldType_ToSql (mkFieldType "datetime" TypeDatetime 0) = "datetime".
Proof. reflexivity. Qed.

(** ** Value converter *)

(** The recursive calls of [convertValue], for a destination that is no
    Scanner: a pointer source is converted as the value it points to, and a
    byte sequence, for a destination other than [*[]byte], as the string of
    its bytes. *)
Lemma convertValue_pointer `{GoRuntime} (dest : Dest) (s : Z) (st : store) :
  as_Scanner dest = None ->
  convertValue dest (SPtrInt64 (Some s)) st = convertValue dest (SInt64 s) st.
Proof. intros Hdest. unfold convertValue. cbn. now rewrite Hdest. Qed.

Lemma convertValue_bytes `{GoRuntime} (dest : Dest) (s : GoBytes) (st : store) :
  as_Scanner dest = None ->
  (forall d, dest <> DPtrBytes d) ->
  convertValue dest (SBytes s) st = convertValue dest (SString (string_of_bytes s)) st.
Proof.
  intros Hscan Hdest. unfold convertValue. cbn. rewrite Hscan.
  destruct dest; try reflexivity. now destruct (Hdest d).
Qed.

(** C1: an int64 source into a boolean cell gives false for 0 and true for
    1; for any other value it returns a conversion error and leaves the
    store as it was. An int64 source into an int64 cell copies the value. *)
Theorem convertValue_int64_source `{GoRuntime} (s : Z) (l : loc) (st : store) :
  convertValue (DPtrBool (Some l)) (SInt64 s) st =
    Done (if decide (s = 0%Z) then (<[l := CBool false]> st, None)
          else if decide (s = 1%Z) then (<[l := CBool true]> st, None)
          else (st, Some (ErrIntToBool s)))
  /\ is_conversion_error (ErrIntToBool s) = true
  /\ convertValue (DPtrInt64 (Some l)) (SInt64 s) st
     = Done (<[l := CInt64 s]> st, None).
Proof.
  repeat split. unfold convertValue. cbn.
  destruct (Z.eqb_spec s 0) as [-> | H0].
  - reflexivity.
  - rewrite decide_False by assumption.
    destruct (Z.eqb_spec s 1) as [-> | H1]; [ reflexivity | ].
    now rewrite decide_False by assumption.
Qed.

Example coerce_int64_1 :
  @convertValue sample_runtime (DPtrInt64 (Some 1%positive)) (SInt64 1) ∅
  = Done ({[ 1%positive := CInt64 1 ]}, None).
Proof. reflexivity. Qed.

Example coerce_bool_1 :
  @convertValue sample_runtime (DPtrBool (Some 1%positive)) (SInt64 1) ∅
  = Done ({[ 1%positive := CBool true ]}, None).
Proof. reflexivity. Qed.

Example coerce_bool_2 :
  @convertValue sample_runtime (DPtrBool (Some 1%positive)) (SInt64 2) ∅
  = Done (∅, Some (ErrIntToBool 2)).
Proof. reflexivity. Qed.

(** C2: a string source into a point-in-time cell is parsed with the full
    layout first; only if that fails it is parsed with the date-only
    layout; the cell is assigned on the first success, and an error is
    returned, the store unchanged, only when both fail. *)
Theorem convertValue_string_time `{GoRuntime} (s : string) (l : loc) (st : store) :
  convertValue (DPtrTime (Some l)) (SString s) st =
    Done (match time_Parse "2006-01-02 15:04:05" s with
          | inr value => (<[l := CTime value]> st, None)
          | inl _ =>
              match time_Parse "2006-01-02" s with
              | inr value => (<[l := CTime value]> st, None)
              | inl err => (st, Some (ErrLib err))
              end
          end).
Proof.
  unfold convertValue. cbn. unfold parse_time_layouts, layout_full, layout_date.
  destruct (time_Parse "2006-01-02 15:04:05" s); [ | reflexivity ].
  destruct (time_Parse "2006-01-02" s); reflexivity.
Qed.

Example coerce_time_full :
  @convertValue sample_runtime (DPtrTime (Some 1%positive))
    (SString "2024-01-02 03:04:05") ∅
  = Done ({[ 1%positive := @CTime sample_runtime (mkSampleTime 2024 1 2 3 4 5) ]}, None).
Proof. reflexivity. Qed.

Example coerce_time_date :
  @convertValue sample_runtime (DPtrTime (Some 1%positive)) (SString "2024-01-02") ∅
  = Done ({[ 1%positive := @CTime sample_runtime (mkSampleTime 2024 1 2 0 0 0) ]}, None).
Proof. reflexivity. Qed.

Example coerce_time_bad :
  exists err,
    @convertValue sample_runtime (DPtrTime (Some 1%positive)) (SString "not-a-date") ∅
    = Done (∅, Some (ErrLib err)).
Proof. eexists. reflexivity. Qed.

(** A source without a value, nil itself or a Valuer yielding nil, reaches
    the end of [convertValue] whenever the destination is no Scanner. *)
Lemma convertValue_no_value `{GoRuntime} (dest : Dest) (src : Src) (st : store) :
  as_Scanner dest = None ->
  src = SNil \/ as_Valuer src = Some (Done SNil) ->
  convertValue dest src st = Done (st, Some (ErrConvertType SNil (Dest_type dest))).
Proof.
  intros Hdest Hsrc. unfold convertValue.
  destruct Hsrc as [-> | ->]; cbn; rewrite Hdest; reflexivity.
Qed.

(** C9: for a destination that is no Scanner, a source that is nil, or a
    Valuer whose [Value()] yields nil, is a conversion error, and the store
    is left as it was. *)
Theorem convertValue_null `{GoRuntime} (dest : Dest) (src : Src) (st : store) :
  as_Scanner dest = None ->
  src = SNil \/ as_Valuer src = Some (Done SNil) ->
  exists e : Error,
    convertValue dest src st = Done (st, Some e)
    /\ e = ErrConvertType SNil (Dest_type dest)
    /\ is_conversion_error e = true.
Proof.
  intros Hdest Hsrc. eexists. split; [ | split; reflexivity ].
  now apply convertValue_no_value.
Qed.

(** A nullable wrapper that holds no value yields nil. *)
Lemma NullTime_no_value `{GoRuntime} (nt : NullTime) :
  NullTime_Valid nt = false ->
  as_Valuer (SNullTime nt) = Some (Done SNil)
  /\ as_Valuer (SPtrNullTime (Some nt)) = Some (Done SNil).
Proof. intros Hvalid. cbn. unfold NullTime_Value. now rewrite Hvalid. Qed.

Lemma NullBytes_no_value `{GoRuntime} (nb : NullBytes) :
  NullBytes_Valid nb = false ->
  as_Valuer (SNullBytes nb) = Some (Done SNil)
  /\ as_Valuer (SPtrNullBytes (Some nb)) = Some (Done SNil).
Proof. intros Hvalid. cbn. unfold NullBytes_Value. now rewrite Hvalid. Qed.

Lemma convertValue_null_witness :
  (@as_Scanner sample_runtime (DPtrInt64 (Some 1%positive)) = None
   /\ (SPtrNullTime (Some sample_no_time) = SNil
       \/ @as_Valuer sample_runtime (SPtrNullTime (Some sample_no_time))
          = Some (Done SNil)))
  /\ exists e : @Error sample_runtime,
       @convertValue sample_runtime (DPtrInt64 (Some 1%positive))
         (SPtrNullTime (Some sample_no_time)) {[ 1%positive := CInt64 7 ]}
       = Done ({[ 1%positive := CInt64 7 ]}, Some e)
       /\ e = ErrConvertType SNil
               (@Dest_type sample_runtime (DPtrInt64 (Some 1%positive)))
       /\ is_conversion_error e = true.
Proof.
  split.
  - split; [ reflexivity | right; reflexivity ].
  - apply (@convertValue_null sample_runtime (DPtrInt64 (Some 1%positive))
             (SPtrNullTime (Some sample_no_time)) {[ 1%positive := CInt64 7 ]});
      [ reflexivity | right; reflexivity ].
Defined.

(** C10: [NullTime.Scan] and [NullBytes.Scan] return a nil error for every
    input; an input that is not of the expected kind, the SQL NULL among
    them, leaves the wrapper with its flag false and its payload zero. *)
Theorem Null_Scan_never_fails `{GoRuntime}
    (nt : NullTime) (nb : NullBytes) (value : Src) :
  snd (NullTime_Scan nt value) = None
  /\ snd (NullBytes_Scan nb value) = None
  /\ ((forall t, value <> STime t) ->
      fst (NullTime_Scan nt value) = mkNullTime time_zero false)
  /\ ((forall b, value <> SBytes b) ->
      fst (NullBytes_Scan nb value) = mkNullBytes None false)
  /\ NullTime_Scan nt SNil = (mkNullTime time_zero false, None)
  /\ NullBytes_Scan nb SNil = (mkNullBytes None false, None).
Proof.
  repeat split.
  - destruct value; reflexivity.
  - destruct value; reflexivity.
  - intros Hkind. destruct value; try reflexivity. now destruct (Hkind s).
  - intros Hkind. destruct value; try reflexivity. now destruct (Hkind s).
Qed.

(** Through [convertValue], a [*NullTime] destination accepts a source of
    any kind without an error. *)
Lemma convertValue_NullTime `{GoRuntime} (l : loc) (src : Src) (st : store) :
  as_Valuer src = None ->
  convertValue (DPtrNullTime (Some l)) src st
  = Done (<[l := CNullTime (fst (NullTime_Scan (mkNullTime time_zero false) src))]> st,
          None).
Proof.
  intros Hsrc. unfold convertValue. rewrite Hsrc. cbn.
  destruct (st !! l) as [[]|]; destruct src; reflexivity.
Qed.

(** ** Query builder *)

Lemma append_empty_r (s : string) : s ++ "" = s.
Proof.
  induction s as [| c s IH]; [ reflexivity | ].
  change (String c (s ++ "") = String c s). now rewrite IH.
Qed.

Section Positional.

Context `{GoRuntime}.

Lemma selected_nil_l (args : list Src) : selected [] args = [].
Proof. reflexivity. Qed.

(** [selected] pairs each field with its argument and keeps the pairs whose
    argument is not nil. *)
Lemma selected_zip_filter (fields : list Field) (args : list Src) :
  selected fields args
  = filter (fun fa => is_nil (snd fa) = false) (zip fields args).
Proof.
  revert args. induction fields as [| field fields IH]; intros [| arg args];
    try reflexivity.
  cbn [selected zip zip_with]. rewrite IH.
  destruct (is_nil arg) eqn:Hnil.
  - rewrite filter_cons_False; [ reflexivity | cbn; congruence ].
  - rewrite filter_cons_True; [ reflexivity | exact Hnil ].
Qed.

Lemma selected_length_le (fields : list Field) (args : list Src) :
  (length (selected fields args) <= length fields)%nat.
Proof.
  revert args. induction fields as [| field fields IH]; intros [| arg args];
    cbn; try lia.
  specialize (IH args). destruct (is_nil arg); cbn; lia.
Qed.

Lemma positions_in_range_length (fields : list Field) (args : list Src) :
  (length args <= length fields)%nat -> positions_in_range fields args.
Proof.
  intros Hlen i arg Hi _. apply lookup_lt_Some in Hi. lia.
Qed.

Lemma positions_in_range_tail (field : Field) (fields : list Field)
    (arg : Src) (args : list Src) :
  positions_in_range (field :: fields) (arg :: args) ->
  positions_in_range fields args.
Proof.
  intros Hrange i a Hi Hnil. specialize (Hrange (S i) a Hi Hnil). cbn in Hrange. lia.
Qed.

Lemma count_non_nil_cons (arg : Src) (args : list Src) :
  count_non_nil (arg :: args)
  = ((if is_nil arg then 0 else 1) + count_non_nil args)%nat.
Proof.
  unfold count_non_nil. destruct (is_nil arg) eqn:Hnil.
  - rewrite filter_cons_False; [ reflexivity | congruence ].
  - rewrite filter_cons_True; [ reflexivity | exact Hnil ].
Qed.

Lemma count_non_nil_out_of_range (args : list Src) :
  positions_in_range [] args -> count_non_nil args = 0%nat.
Proof.
  induction args as [| arg args IH]; intros Hrange; [ reflexivity | ].
  rewrite count_non_nil_cons, IH.
  - destruct (is_nil arg) eqn:Hnil; [ reflexivity | ].
    specialize (Hrange 0%nat arg eq_refl Hnil). cbn in Hrange. lia.
  - intros i a Hi Hnil. specialize (Hrange (S i) a Hi Hnil). cbn in Hrange. lia.
Qed.

(** One selected field per non-nil position. *)
Lemma selected_length (fields : list Field) (args : list Src) :
  positions_in_range fields args ->
  length (selected fields args) = count_non_nil args.
Proof.
  revert args. induction fields as [| field fields IH]; intros args Hrange.
  - now rewrite count_non_nil_out_of_range.
  - destruct args as [| arg args]; [ reflexivity | ].
    rewrite count_non_nil_cons. cbn [selected].
    apply positions_in_range_tail in Hrange.
    destruct (is_nil arg); cbn; rewrite IH by assumption; reflexivity.
Qed.

(** The loop computes the selection: started at index [i] it appends, to
    the lists built so far, what the fields from [i] on select. *)
Lemma positional_selected (fields : list Field) (suffix : string)
    (args : list Src) (i : nat) (keys : list string) (params : list Src) :
  positions_in_range (drop i fields) args ->
  positional fields suffix i args keys params
  = Done ((keys ++ map (fun fa => (Field_FullName (fst fa) ++ suffix)%string)
                     (selected (drop i fields) args))%list,
          (params ++ map snd (selected (drop i fields) args))%list).
Proof.
  revert i keys params.
  induction args as [| arg args IH]; intros i keys params Hrange.
  - cbn. destruct (drop i fields); cbn; now rewrite !app_nil_r.
  - cbn [positional].
    destruct (fields !! i) as [field |] eqn:Hfield.
    + rewrite (drop_S _ _ _ Hfield) in Hrange |- *.
      apply positions_in_range_tail in Hrange.
      cbn [selected]. destruct (is_nil arg).
      * now apply IH.
      * rewrite IH by assumption. cbn [map fst snd].
        now rewrite <- !app_assoc.
    + apply lookup_ge_None in Hfield.
      rewrite (drop_ge _ _ Hfield) in Hrange |- *.
      destruct (is_nil arg) eqn:Hnil.
      * rewrite IH.
        -- now rewrite drop_ge by lia.
        -- rewrite drop_ge by lia.
           intros j a Hj Ha. specialize (Hrange (S j) a Hj Ha).
           cbn in Hrange. lia.
      * specialize (Hrange 0%nat arg eq_refl Hnil). cbn in Hrange. lia.
Qed.

Lemma positional_predicates (fields : list Field) (args : list Src) :
  positions_in_range fields args ->
  positional fields "=?" 0 args [] []
  = Done (selected_predicates fields args, selected_params fields args).
Proof. intros Hrange. now rewrite positional_selected. Qed.

Lemma positional_columns (fields : list Field) (args : list Src) :
  positions_in_range fields args ->
  positional fields "" 0 args [] []
  = Done (selected_columns fields args, selected_params fields args).
Proof.
  intros Hrange. rewrite positional_selected by assumption. cbn.
  unfold selected_columns, selected_params. do 2 f_equal.
  apply map_ext. intros [field arg]. cbn. apply append_empty_r.
Qed.

(** Nil arguments select nothing, wherever they sit. *)
Lemma positional_all_nil (fields : list Field) (suffix : string)
    (args : list Src) (i : nat) (keys : list string) (params : list Src) :
  Forall (fun arg => is_nil arg = true) args ->
  positional fields suffix i args keys params = Done (keys, params).
Proof.
  intros Hnil. revert i. induction Hnil as [| arg args Harg _ IH]; intros i.
  - reflexivity.
  - cbn. now rewrite Harg.
Qed.

Lemma slice_to_marks (n k : nat) :
  (k <= n)%nat -> slice_to (replicate n "?") k = Done (replicate k "?").
Proof.
  intros Hk. unfold slice_to. rewrite length_replicate.
  destruct (Nat.leb_spec k n); [ | lia ].
  rewrite take_replicate. f_equal. f_equal. lia.
Qed.

End Positional.

(** C3: [Add] lists as INSERT columns exactly the qualified names of the
    fields at the non-nil positions, in field order, binds the values at
    those positions, and writes as many [?] placeholders as columns. *)
Theorem Table_Add_statement `{GoRuntime} (t : Table) (values : list Src) :
  Table_invariant t ->
  positions_in_range (Table_Fields t) values ->
  Table_Add t values
  = Done (Table_sqlInsert t
          ++ " (" ++ strings_Join (selected_columns (Table_Fields t) values) ", "
          ++ ") VALUES ("
          ++ strings_Join
               (replicate (length (selected_columns (Table_Fields t) values)) "?") ", "
          ++ ")",
          selected_params (Table_Fields t) values)
  /\ length (selected_columns (Table_Fields t) values) = count_non_nil values
  /\ length (selected_params (Table_Fields t) values) = count_non_nil values.
Proof.
  intros [_ Hmarks] Hrange.
  assert (Hlen : length (selected (Table_Fields t) values) = count_non_nil values)
    by now apply selected_length.
  unfold selected_columns, selected_params. rewrite !length_map.
  split; [ | now split ].
  unfold Table_Add. rewrite positional_columns by assumption. cbn [pbind].
  unfold selected_columns, selected_params.
  rewrite Hmarks, length_map, slice_to_marks by apply selected_length_le.
  reflexivity.
Qed.

Lemma Table_Add_statement_witness :
  (Table_invariant sample_table
   /\ positions_in_range (Table_Fields sample_table)
        [@SNil sample_runtime; SString "x"; SInt64 5])
  /\ (@Table_Add sample_runtime sample_table [SNil; SString "x"; SInt64 5]
      = Done (Table_sqlInsert sample_table
              ++ " ("
              ++ strings_Join
                   (selected_columns (Table_Fields sample_table)
                      [@SNil sample_runtime; SString "x"; SInt64 5]) ", "
              ++ ") VALUES ("
              ++ strings_Join
                   (replicate
                      (length
                         (selected_columns (Table_Fields sample_table)
                            [@SNil sample_runtime; SString "x"; SInt64 5])) "?") ", "
              ++ ")",
              selected_params (Table_Fields sample_table)
                [@SNil sample_runtime; SString "x"; SInt64 5])
      /\ length (selected_columns (Table_Fields sample_table)
                   [@SNil sample_runtime; SString "x"; SInt64 5])
         = count_non_nil [@SNil sample_runtime; SString "x"; SInt64 5]
      /\ length (selected_params (Table_Fields sample_table)
                   [@SNil sample_runtime; SString "x"; SInt64 5])
         = count_non_nil [@SNil sample_runtime; SString "x"; SInt64 5]).
Proof.
  assert (Hinv : Table_invariant sample_table) by (split; reflexivity).
  assert (Hrange : positions_in_range (Table_Fields sample_table)
                     [@SNil sample_runtime; SString "x"; SInt64 5])
    by (apply positions_in_range_length; simpl; lia).
  split; [ split; assumption | ].
  exact (@Table_Add_statement sample_runtime sample_table
           [SNil; SString "x"; SInt64 5] Hinv Hrange).
Defined.

Example Add_nil_x_5 :
  @Table_Add sample_runtime sample_table [SNil; SString "x"; SInt64 5]
  = Done ("INSERT INTO shop.t (t.`name`, t.`score`) VALUES (?, ?)",
          [SString "x"; SInt64 5]).
Proof. reflexivity. Qed.

(** A non-nil value beyond the last field makes [Add] panic on
    [t.Fields[i]]. *)
Example Add_beyond_fields :
  @Table_Add sample_runtime sample_table [SNil; SNil; SNil; SInt64 1]
  = Panic index_out_of_range.
Proof. reflexivity. Qed.

(** A list with one element has the same join under every separator. *)
Lemma strings_Join_single (x sep : string) : strings_Join [x] sep = x.
Proof. reflexivity. Qed.

(** C4: for a positional list with at least one non-nil element, [Get]
    joins the [field=?] predicates of the non-nil positions, in field
    order, with AND and appends [limit 1]; [Find] joins the same predicates
    with OR; with exactly one non-nil element the two statements are the
    same, with the one predicate as their clause. *)
Theorem Table_Get_Find_statement `{GoRuntime} (t : Table) (args : list Src) :
  positions_in_range (Table_Fields t) args ->
  (1 <= count_non_nil args)%nat ->
  Table_Get t args
  = Done (Table_sqlSelect t ++ " WHERE "
          ++ strings_Join (selected_predicates (Table_Fields t) args) " AND "
          ++ " limit 1",
          selected_params (Table_Fields t) args)
  /\ Table_Find t args
     = Done (Table_sqlSelect t ++ " WHERE "
             ++ strings_Join (selected_predicates (Table_Fields t) args) " OR "
             ++ " limit 1",
             selected_params (Table_Fields t) args)
  /\ length (selected_predicates (Table_Fields t) args) = count_non_nil args
  /\ (count_non_nil args = 1%nat ->
      Table_Get t args = Table_Find t args
      /\ exists (field : Field) (arg : Src),
           selected (Table_Fields t) args = [(field, arg)]
           /\ Table_Get t args
              = Done (Table_sqlSelect t ++ " WHERE "
                      ++ (Field_FullName field ++ "=?") ++ " limit 1",
                      [arg])).
Proof.
  intros Hrange _.
  assert (Hlen : length (selected (Table_Fields t) args) = count_non_nil args)
    by now apply selected_length.
  assert (Hget : Table_Get t args
                 = Done (Table_sqlSelect t ++ " WHERE "
                         ++ strings_Join (selected_predicates (Table_Fields t) args)
                              " AND "
                         ++ " limit 1",
                         selected_params (Table_Fields t) args)).
  { unfold Table_Get. now rewrite positional_predicates. }
  assert (Hfind : Table_Find t args
                  = Done (Table_sqlSelect t ++ " WHERE "
                          ++ strings_Join (selected_predicates (Table_Fields t) args)
                               " OR "
                          ++ " limit 1",
                          selected_params (Table_Fields t) args)).
  { unfold Table_Find. now rewrite positional_predicates. }
  split; [ exact Hget | ]. split; [ exact Hfind | ].
  split; [ unfold selected_predicates; now rewrite length_map | ].
  intros Hone. rewrite Hone in Hlen.
  destruct (selected (Table_Fields t) args) as [| [field arg] [| more rest]] eqn:Hsel;
    try discriminate Hlen.
  rewrite Hget, Hfind. unfold selected_predicates, selected_params.
  rewrite Hsel. cbn [map fst snd]. rewrite !strings_Join_single.
  split; [ reflexivity | ].
  exists field, arg. split; reflexivity.
Qed.

Lemma Table_Get_Find_statement_witness :
  (positions_in_range (Table_Fields sample_table)
     [@SNil sample_runtime; SString "x"; SNil]
   /\ (1 <= count_non_nil [@SNil sample_runtime; SString "x"; SNil])%nat)
  /\ @Table_Get sample_runtime sample_table [SNil; SString "x"; SNil]
     = Done (Table_sqlSelect sample_table ++ " WHERE "
             ++ strings_Join
                  (selected_predicates (Table_Fields sample_table)
                     [@SNil sample_runtime; SString "x"; SNil]) " AND "
             ++ " limit 1",
             selected_params (Table_Fields sample_table)
               [@SNil sample_runtime; SString "x"; SNil])
  /\ @Table_Get sample_runtime sample_table [SNil; SString "x"; SNil]
     = @Table_Find sample_runtime sample_table [SNil; SString "x"; SNil].
Proof.
  assert (Hrange : positions_in_range (Table_Fields sample_table)
                     [@SNil sample_runtime; SString "x"; SNil])
    by (apply positions_in_range_length; simpl; lia).
  assert (Hcount : (1 <= count_non_nil [@SNil sample_runtime; SString "x"; SNil])%nat)
    by (cbv; lia).
  split; [ split; assumption | ].
  destruct (@Table_Get_Find_statement sample_runtime sample_table
              [SNil; SString "x"; SNil] Hrange Hcount)
    as (Hget & _ & _ & Hone).
  split; [ exact Hget | ].
  exact (proj1 (Hone eq_refl)).
Defined.

Example Get_nil_x_nil :
  @Table_Get sample_runtime sample_table [SNil; SString "x"; SNil]
  = Done ("SELECT t.`id`,t.`name`,t.`score` FROM shop.t  WHERE t.`name`=? limit 1",
          [SString "x"]).
Proof. reflexivity. Qed.

Example Find_nil_x_nil :
  @Table_Find sample_runtime sample_table [SNil; SString "x"; SNil]
  = @Table_Get sample_runtime sample_table [SNil; SString "x"; SNil].
Proof. reflexivity. Qed.

Example Find_a_b_nil :
  @Table_Find sample_runtime sample_table [SString "a"; SString "b"; SNil]
  = Done ("SELECT t.`id`,t.`name`,t.`score` FROM shop.t  WHERE t.`id`=? OR t.`name`=? limit 1",
          [SString "a"; SString "b"]).
Proof. reflexivity. Qed.

(** C8: when every positional argument is nil, the empty list included,
    [Find] and [FindMany] emit the keyword WHERE followed by an empty
    predicate string, and bind no argument. *)
Theorem Table_Find_all_nil `{GoRuntime} (t : Table) (args : list Src) :
  Forall (fun arg => is_nil arg = true) args ->
  Table_Find t args = Done (Table_sqlSelect t ++ " WHERE " ++ "" ++ " limit 1", [])
  /\ Table_FindMany t args = Done (Table_sqlSelect t ++ " WHERE " ++ "", []).
Proof.
  intros Hnil. unfold Table_Find, Table_FindMany.
  rewrite positional_all_nil by assumption. split; reflexivity.
Qed.

Lemma Table_Find_all_nil_witness :
  Forall (fun arg => is_nil arg = true) [@SNil sample_runtime; SNil; SNil]
  /\ (@Table_Find sample_runtime sample_table [SNil; SNil; SNil]
      = Done (Table_sqlSelect sample_table ++ " WHERE " ++ "" ++ " limit 1", [])
      /\ @Table_FindMany sample_runtime sample_table [SNil; SNil; SNil]
         = Done (Table_sqlSelect sample_table ++ " WHERE " ++ "", [])).
Proof.
  assert (Hnil : Forall (fun arg => is_nil arg = true)
                   [@SNil sample_runtime; SNil; SNil])
    by (repeat constructor).
  split; [ exact Hnil | ].
  exact (@Table_Find_all_nil sample_runtime sample_table [SNil; SNil; SNil] Hnil).
Defined.

Example Find_no_argument :
  @Table_Find sample_runtime sample_table []
  = Done ("SELECT t.`id`,t.`name`,t.`score` FROM shop.t  WHERE  limit 1", []).
Proof. reflexivity. Qed.

(** ** Schema catalog *)

Section Catalog.

Context `{G : GoRuntime} {D : SqlRuntime}.

Lemma classify_key_Fields (table : Table) (row : Field) :
  Table_Fields (classify_key table row) = Table_Fields table
  /\ Table_sqlArgMark (classify_key table row) = Table_sqlArgMark table.
Proof.
  unfold classify_key.
  destruct (String.eqb (Field_Key row) "PRI"); [ split; reflexivity | ].
  destruct (String.eqb (Field_Key row) "UNI"); split; reflexivity.
Qed.

(** The loop adds one field and one placeholder token per row. *)
Lemma GetTable_loop_fields (rows : list ColumnRow) (table table' : Table)
    (keys keys' : list string) :
  GetTable_loop rows table keys = Done (inr (table', keys')) ->
  length (Table_Fields table') = (length (Table_Fields table) + length rows)%nat
  /\ Table_sqlArgMark table'
     = (Table_sqlArgMark table ++ replicate (length rows) "?")%list.
Proof.
  revert table keys. induction rows as [| cols rows IH]; intros table keys Hloop.
  - cbn in Hloop. injection Hloop as <- <-. cbn.
    rewrite app_nil_r. split; [ lia | reflexivity ].
  - cbn [GetTable_loop] in Hloop. unfold rbind at 1 in Hloop.
    destruct (scan_row cols) as [[err | [row nullable]] | msg];
      try discriminate Hloop.
    apply IH in Hloop as [Hfields Hmarks].
    pose proof (classify_key_Fields
                  (append_field table
                     (mkField (Field_Name row)
                        (Table_TbName table ++ ".`" ++ Field_Name row ++ "`")
                        (Field_Type row) (parseNullable nullable) (Field_Key row)
                        (Field_Default row) (Field_Extra row) (Field_Comment row)))
                  (mkField (Field_Name row)
                     (Table_TbName table ++ ".`" ++ Field_Name row ++ "`")
                     (Field_Type row) (parseNullable nullable) (Field_Key row)
                     (Field_Default row) (Field_Extra row) (Field_Comment row)))
      as [Hcf Hcm].
    rewrite Hcf in Hfields. rewrite Hcm in Hmarks.
    cbn [append_field Table_Fields Table_sqlArgMark] in Hfields, Hmarks.
    rewrite length_app in Hfields. cbn [length] in Hfields |- *.
    split; [ lia | ].
    rewrite Hmarks, <- app_assoc. reflexivity.
Qed.

(** The statements after the loop keep the fields and the tokens, and
    refuse an empty field list. *)
Lemma GetTable_finish_fields (tablename : string) (table t : Table)
    (keys : list string) :
  GetTable_finish tablename table keys = Done (inr t) ->
  Table_Fields t = Table_Fields table
  /\ Table_sqlArgMark t = Table_sqlArgMark table
  /\ Table_Len t = Z.of_nat (length (Table_Fields table))
  /\ (0 < length (Table_Fields table))%nat.
Proof.
  unfold GetTable_finish.
  destruct (Z.eqb_spec (Z.of_nat (length (Table_Fields table))) 0) as [Hz | Hnz];
    [ discriminate | ].
  intros Hfinish. injection Hfinish as <-. cbn. repeat split. lia.
Qed.

End Catalog.

(** C5: when the catalog query gives no column row, [GetTable] returns the
    error saying that the table's columns were not found, and in no case a
    table; every table it does return has at least one field, [Len] equal
    to the number of its fields, and one [?] token per field. *)
Theorem GetTable_columns_no_found `{G : GoRuntime} {D : SqlRuntime}
    (db_name tablename : string) :
  GetTable db_name (inr (mkCursor [] None)) tablename
  = Done (inl (ErrColumnsNoFound tablename))
  /\ Error_text (ErrColumnsNoFound tablename)
     = Some ("the table (" ++ tablename ++ ") columns no found")
  /\ (forall (err : option string) (t : Table),
        GetTable db_name (inr (mkCursor [] err)) tablename <> Done (inr t))
  /\ (forall (query_result : string + Cursor) (t : Table),
        GetTable db_name query_result tablename = Done (inr t) ->
        (1 <= length (Table_Fields t))%nat
        /\ Table_Len t = Z.of_nat (length (Table_Fields t))
        /\ Table_sqlArgMark t = replicate (length (Table_Fields t)) "?"
        /\ Table_invariant t).
Proof.
  split; [ reflexivity | ]. split; [ reflexivity | ]. split.
  - intros [err |] t; discriminate.
  - intros [err | rows] t Hget; [ discriminate Hget | ].
    unfold GetTable in Hget. unfold rbind at 1 in Hget.
    destruct (GetTable_loop (Cursor_rows rows) _ []) as [[e | [table keys]] | msg]
      eqn:Hloop; try discriminate Hget.
    destruct (Cursor_Err rows); [ discriminate Hget | ].
    apply GetTable_loop_fields in Hloop as [Hfields Hmarks].
    apply GetTable_finish_fields in Hget as (Hf & Hm & HLen & Hpos).
    cbn in Hfields, Hmarks.
    assert (Hrep : Table_sqlArgMark t = replicate (length (Table_Fields t)) "?")
      by (rewrite Hm, Hf, Hmarks, Hfields; reflexivity).
    rewrite Hf. rewrite Hf in Hrep.
    repeat split; try assumption; try lia; rewrite Hf; assumption.
Qed.

Example GetTable_nonexistent :
  @GetTable sample_runtime sample_sql "shop" (inr (mkCursor [] None)) "nonexistent"
  = Done (inl (ErrColumnsNoFound "nonexistent")).
Proof. reflexivity. Qed.

Example GetTable_sample_invariant : Table_invariant sample_table.
Proof. split; reflexivity. Qed.

(** ** Row.Scan and SQL NULL *)

Section RowScan.

Context `{G : GoRuntime} {D : SqlRuntime}.

(** A scratch cell that has scanned a SQL NULL holds no value. *)
Lemma scan_nullable_null (index : nat) (cell cell' : Scratch) :
  scan_nullable index cell SNil = Done (inr cell') ->
  as_Valuer (Scratch_src cell') = Some (Done SNil).
Proof.
  destruct cell; cbn; intros Hscan; injection Hscan as <-; reflexivity.
Qed.

Lemma scan_columns_null (scans : list (option Scratch)) (values : list Src)
    (index : nat) (cells : list Scratch) (i : nat) :
  scan_columns index scans values = Done (inr cells) ->
  length scans = length values ->
  values !! i = Some SNil ->
  exists cell, cells !! i = Some cell
               /\ as_Valuer (Scratch_src cell) = Some (Done SNil).
Proof.
  revert values index cells i.
  induction scans as [| cell scans IH]; intros [| value values] index cells i;
    cbn [scan_columns]; intros Hscan Hlen Hi; try discriminate.
  destruct cell as [cell |]; [ | discriminate Hscan ].
  unfold rbind at 1 in Hscan.
  destruct (scan_nullable index cell value) as [[err | cell'] | msg] eqn:Hcell;
    try discriminate Hscan.
  unfold rbind at 1 in Hscan.
  destruct (scan_columns (S index) scans values) as [[err | rest] | msg]
    eqn:Hrest; try discriminate Hscan.
  injection Hscan as <-.
  destruct i as [| i].
  - injection Hi as ->. exists cell'. split; [ reflexivity | ].
    now apply scan_nullable_null in Hcell.
  - cbn in Hi |- *. apply (IH values (S index) rest i Hrest); [ | exact Hi ].
    cbn in Hlen. lia.
Qed.

(** A loop of [Row.Scan] that ends without an error has met no scratch
    cell without a value at the position of a plain destination. *)
Lemma Row_Scan_loop_ok (cells : list Scratch) (dest : list Dest) (k : nat)
    (st st' : store) (j : nat) (d : Dest) :
  Row_Scan_loop cells k dest st = Done (st', None) ->
  dest !! j = Some d ->
  is_nil_dest d = false ->
  as_Scanner d = None ->
  exists cell, cells !! (k + j)%nat = Some cell
               /\ as_Valuer (Scratch_src cell) <> Some (Done SNil).
Proof.
  revert k st j. induction dest as [| d0 dest IH]; intros k st j Hloop Hj Hd Hscan;
    [ discriminate Hj | ].
  cbn [Row_Scan_loop] in Hloop.
  destruct j as [| j].
  - injection Hj as ->. rewrite Hd in Hloop. rewrite Nat.add_0_r.
    destruct (cells !! k) as [cell |]; [ | discriminate Hloop ].
    exists cell. split; [ reflexivity | ]. intros Hnull.
    rewrite (convertValue_no_value d (Scratch_src cell) st Hscan (or_intror Hnull))
      in Hloop.
    discriminate Hloop.
  - cbn in Hj. replace (k + S j)%nat with (S k + j)%nat by lia.
    destruct (is_nil_dest d0).
    + exact (IH _ _ _ Hloop Hj Hd Hscan).
    + destruct (cells !! k) as [cell |]; [ | discriminate Hloop ].
      destruct (convertValue d0 (Scratch_src cell) st) as [[st0 [e |]] | msg];
        try discriminate Hloop.
      exact (IH _ _ _ Hloop Hj Hd Hscan).
Qed.

(** X13: a SQL NULL is never decoded into a plain destination: when [Row.Scan]
    returns without an error, no column that faces a non-nil destination
    without the Scanner capability was NULL. *)
Lemma Row_Scan_null (t : Table) (values : list Src) (dest : list Dest)
    (st st' : store) (i : nat) (d : Dest) :
  Row_Scan t (inr values) dest st = Done (st', None) ->
  dest !! i = Some d ->
  is_nil_dest d = false ->
  as_Scanner d = None ->
  values !! i <> Some SNil.
Proof.
  unfold Row_Scan, sql_Row_Scan. intros Hscan Hi Hd Hplain Hnull.
  destruct (makeNullableScans t) as [scans | msg]; [ | discriminate Hscan ].
  cbn [pbind] in Hscan.
  destruct (Nat.eqb_spec (length scans) (length values)) as [Hlen | _];
    [ | discriminate Hscan ].
  destruct (scan_columns 0 scans values) as [[err | cells] | msg] eqn:Hcells;
    try discriminate Hscan.
  destruct (scan_columns_null _ _ _ _ _ Hcells Hlen Hnull) as (cell & Hcell & Hno).
  destruct (Row_Scan_loop_ok _ _ _ _ _ _ _ Hscan Hi Hd Hplain) as (cell' & Hcell' & Hyes).
  cbn in Hcell'. rewrite Hcell in Hcell'. injection Hcell' as <-. contradiction.
Qed.

End RowScan.

Example Row_Scan_sample :
  @Row_Scan sample_runtime sample_sql sample_table
    (inr [SInt64 7; SBytes (Some "ann"); SInt64 3])
    [DPtrInt64 (Some 1%positive); DPtrString (Some 2%positive); DNil] ∅
  = Done ({[ 1%positive := CInt64 7; 2%positive := CString "ann" ]}, None).
Proof. reflexivity. Qed.

Example Row_Scan_sample_null :
  @Row_Scan sample_runtime sample_sql sample_table
    (inr [SInt64 7; SNil; SInt64 3])
    [DPtrInt64 (Some 1%positive); DPtrString (Some 2%positive); DNil] ∅
  = Done ({[ 1%positive := CInt64 7 ]}, Some (ErrConvertType SNil "*string")).
Proof. reflexivity. Qed.

(** * Further properties *)

(** ** Decimal text *)

Lemma parse_digits_acc (d : Decimal.uint) (acc : positive) :
  parse_digits (Z.pos acc) (NilEmpty.string_of_uint d)
  = Some (Z.pos (Pos.of_uint_acc d acc)).
Proof.
  revert acc. induction d; intros acc; cbn [NilEmpty.string_of_uint Pos.of_uint_acc];
    [ reflexivity | .. ];
    (etransitivity; [ | apply IHd ]); cbn [parse_digits];
    (match goal with |- (if ?b then _ else _) = _ => change b with true end);
    cbv beta iota; f_equal; unfold digit_val;
    (match goal with
     | |- context [Z.of_nat (nat_of_ascii ?c)] =>
         let v := eval vm_compute in (Z.of_nat (nat_of_ascii c)) in
         change (Z.of_nat (nat_of_ascii c)) with v
     end); lia.
Qed.

Lemma parse_digits_uint (d : Decimal.uint) :
  parse_digits 0 (NilEmpty.string_of_uint d) = Some (Z.of_N (Pos.of_uint d)).
Proof.
  induction d; cbn [NilEmpty.string_of_uint Pos.of_uint]; [ reflexivity | exact IHd | .. ];
    (etransitivity; [ | apply parse_digits_acc ]); reflexivity.
Qed.

(** [fmt_d] prints a non-negative integer as its decimal digits, which
    [parse_digits] reads back. *)
Lemma fmt_d_uint (n : Z) :
  (0 <= n)%Z ->
  exists d : Decimal.uint,
    d <> Decimal.Nil /\ fmt_d n = NilEmpty.string_of_uint d
    /\ Z.of_N (Pos.of_uint d) = n.
Proof.
  intros Hn. destruct n as [| p | p]; [ | | lia ].
  - exists (Decimal.D0 Decimal.Nil). repeat split. discriminate.
  - exists (Pos.to_uint p). split; [ apply DecimalPos.Unsigned.to_uint_nonnil | ].
    split.
    + unfold fmt_d. cbn [Z.to_int NilZero.string_of_int NilZero.string_of_uint].
      pose proof (DecimalPos.Unsigned.to_uint_nonnil p) as Hnil.
      destruct (Pos.to_uint p); [ contradiction | reflexivity .. ].
    + now rewrite DecimalPos.Unsigned.of_to.
Qed.

Lemma parse_digits_fmt_d (n : Z) :
  (0 <= n)%Z -> parse_digits 0 (fmt_d n) = Some n.
Proof.
  intros Hn. destruct (fmt_d_uint n Hn) as (d & _ & -> & <-).
  apply parse_digits_uint.
Qed.

Lemma string_of_uint_digits (d : Decimal.uint) :
  string_forall is_digit (NilEmpty.string_of_uint d) = true.
Proof. induction d; cbn [NilEmpty.string_of_uint string_forall]; [ reflexivity | exact IHd .. ]. Qed.

Lemma digit_no_sign (c : ascii) :
  is_digit c = true -> Ascii.eqb c "-" = false /\ Ascii.eqb c "+" = false.
Proof.
  destruct c as [[] [] [] [] [] [] [] []]; intros Hc; try discriminate Hc;
    split; reflexivity.
Qed.

Lemma parse_digits_nonneg (s : string) (acc n : Z) :
  (0 <= acc)%Z -> parse_digits acc s = Some n -> (0 <= n)%Z.
Proof.
  revert acc. induction s as [| c s IH]; intros acc Hacc; cbn [parse_digits].
  - intros [= <-]. exact Hacc.
  - destruct (is_digit c) eqn:Hc; [ | discriminate ].
    apply IH. unfold digit_val.
    assert (48 <= Z.of_nat (nat_of_ascii c))%Z; [ | lia ].
    unfold is_digit, in_range, byte_le in Hc.
    apply andb_prop in Hc as [Hlo _]. apply Nat.leb_le in Hlo.
    change (nat_of_ascii "0") with 48%nat in Hlo. lia.
Qed.

(** The value [strconv.Atoi] gives for a run of digits lies between 0 and
    the largest [int]. *)
Lemma strconv_Atoi_digits (s : string) :
  string_forall is_digit s = true ->
  (0 <= strconv_Atoi s <= maxInt64)%Z.
Proof.
  intros Hs. assert (Hmax : (0 <= maxInt64)%Z) by (unfold maxInt64; lia).
  destruct s as [| c r]; [ cbn; lia | ].
  cbn [string_forall] in Hs. apply andb_prop in Hs as [Hc Hr].
  destruct (digit_no_sign c Hc) as [Hminus Hplus].
  unfold strconv_Atoi. rewrite Hminus, Hplus. cbn [orb].
  destruct (parse_digits 0 (String c r)) as [n |] eqn:Hn; [ | lia ].
  apply parse_digits_nonneg in Hn; lia.
Qed.

Lemma strconv_Atoi_fmt_d (n : Z) :
  (0 <= n <= maxInt64)%Z -> strconv_Atoi (fmt_d n) = n.
Proof.
  intros Hn. pose proof (parse_digits_fmt_d n (proj1 Hn)) as Hparse.
  destruct (fmt_d_uint n (proj1 Hn)) as (d & Hnil & Hd & _).
  pose proof (string_of_uint_digits d) as Hdigits. rewrite <- Hd in Hdigits.
  destruct (fmt_d n) as [| c r] eqn:Htext.
  - destruct d; [ contradiction | discriminate Hd .. ].
  - cbn [string_forall] in Hdigits. apply andb_prop in Hdigits as [Hc _].
    destruct (digit_no_sign c Hc) as [Hminus Hplus].
    unfold strconv_Atoi. rewrite Hminus, Hplus. cbn [orb]. rewrite Hparse. lia.
Qed.

Lemma take_while_all (p : ascii -> bool) (s : string) :
  string_forall p (take_while p s) = true.
Proof.
  induction s as [| c s IH]; cbn [take_while]; [ reflexivity | ].
  destruct (p c) eqn:Hc; [ | reflexivity ].
  cbn [string_forall]. now rewrite Hc.
Qed.

(** What [FindString] gives is made of bytes of the class. *)
Lemma FindString_run_all (p : ascii -> bool) (s : string) :
  string_forall p (FindString_run p s) = true.
Proof.
  induction s as [| c s IH]; cbn [FindString_run]; [ reflexivity | ].
  destruct (p c) eqn:Hc; [ | exact IH ].
  cbn [string_forall]. rewrite Hc. apply take_while_all.
Qed.

Lemma take_while_stop (p : ascii -> bool) (s : string) (c : ascii) (rest : string) :
  string_forall p s = true -> p c = false ->
  take_while p (s ++ String c rest) = s.
Proof.
  intros Hs Hc. induction s as [| a s IH].
  - change (take_while p (String c rest) = ""). cbn [take_while]. now rewrite Hc.
  - cbn [string_forall] in Hs. apply andb_prop in Hs as [Ha Hs].
    change (take_while p (String a (s ++ String c rest)) = String a s).
    cbn [take_while]. rewrite Ha, IH by assumption. reflexivity.
Qed.

Lemma take_while_whole (p : ascii -> bool) (s : string) :
  string_forall p s = true -> take_while p s = s.
Proof.
  induction s as [| a s IH]; [ reflexivity | ].
  cbn [string_forall take_while]. intros Hs. apply andb_prop in Hs as [Ha Hs].
  now rewrite Ha, IH.
Qed.

Lemma FindString_run_stop (p : ascii -> bool) (s : string) (c : ascii) (rest : string) :
  string_forall p s = true -> s <> "" -> p c = false ->
  FindString_run p (s ++ String c rest) = s.
Proof.
  intros Hs Hne Hc. destruct s as [| a s]; [ contradiction | ].
  cbn [string_forall] in Hs. apply andb_prop in Hs as [Ha Hs].
  change (FindString_run p (String a (s ++ String c rest)) = String a s).
  cbn [FindString_run]. rewrite Ha, take_while_stop by assumption. reflexivity.
Qed.

Lemma FindString_run_whole (p : ascii -> bool) (s : string) :
  string_forall p s = true -> FindString_run p s = s.
Proof.
  destruct s as [| a s]; [ reflexivity | ].
  cbn [string_forall FindString_run]. intros Hs. apply andb_prop in Hs as [Ha Hs].
  now rewrite Ha, take_while_whole.
Qed.

Lemma FindString_run_skip (p : ascii -> bool) (pre s : string) :
  string_forall (fun c => negb (p c)) pre = true ->
  FindString_run p (pre ++ s) = FindString_run p s.
Proof.
  induction pre as [| a pre IH]; [ reflexivity | ].
  cbn [string_forall]. intros Hpre. apply andb_prop in Hpre as [Ha Hpre].
  change (FindString_run p (String a (pre ++ s)) = FindString_run p s).
  cbn [FindString_run]. apply negb_true_iff in Ha. rewrite Ha. now apply IH.
Qed.

Lemma FindString_run_none (p : ascii -> bool) (s : string) :
  string_forall (fun c => negb (p c)) s = true -> FindString_run p s = "".
Proof.
  induction s as [| a s IH]; [ reflexivity | ].
  cbn [string_forall FindString_run]. intros Hs. apply andb_prop in Hs as [Ha Hs].
  apply negb_true_iff in Ha. rewrite Ha. now apply IH.
Qed.

(** ** Type coder, further *)

(** The labels of [parseDbType]: the switch gives a code only for one of
    them, and [formatDbType] names that code by the same label. *)
Lemma parseDbType_cases_inv (x : string) (code : Z) :
  switch_string x parseDbType_cases = Some code ->
  code ∈ all_type_codes /\ formatDbType code = Done x
  /\ string_forall is_word x = true
  /\ string_forall (fun c => negb (is_digit c)) x = true
  /\ x <> "".
Proof.
  unfold parseDbType_cases. cbn [switch_string]. intros Hcase.
  repeat (match type of Hcase with
          | (if String.eqb x ?label then _ else _) = _ =>
              destruct (String.eqb_spec x label) as [-> | _];
              [ injection Hcase as <-;
                split; [ unfold all_type_codes; set_solver | ];
                repeat split; discriminate
              | ]
          end).
  discriminate Hcase.
Qed.

(** X1: a name that [parseDbType] accepts is mapped to a code of the closed
    set, and [formatDbType] maps that code back to the lower-case form of
    the name. *)
Theorem formatDbType_parseDbType `{GoRuntime} (typename : string) (code : Z) :
  parseDbType typename = Done code ->
  code ∈ all_type_codes
  /\ formatDbType code = Done (strings_ToLower typename).
Proof.
  unfold parseDbType. intros Hparse.
  destruct (switch_string (strings_ToLower typename) parseDbType_cases) as [c |]
    eqn:Hcase; [ | discriminate Hparse ].
  injection Hparse as ->.
  destruct (parseDbType_cases_inv _ _ Hcase) as (Hcode & Hformat & _).
  now split.
Qed.

Lemma formatDbType_parseDbType_witness :
  @parseDbType sample_runtime "DateTime" = Done TypeDatetime
  /\ (TypeDatetime ∈ all_type_codes
      /\ formatDbType TypeDatetime = Done (@strings_ToLower sample_runtime "DateTime")).
Proof.
  split; [ reflexivity | ].
  apply (@formatDbType_parseDbType sample_runtime "DateTime" TypeDatetime).
  reflexivity.
Defined.

Lemma parseFieldType_inv `{GoRuntime} (typestr name : string) (code length : Z) :
  parseFieldType typestr = Done (name, code, length) ->
  name = FindString_run is_word typestr
  /\ string_forall is_word name = true
  /\ parseDbType name = Done code
  /\ code ∈ all_type_codes
  /\ (0 <= length <= maxInt64)%Z.
Proof.
  unfold parseFieldType.
  destruct (parseDbType (FindString_run is_word typestr)) as [c | msg] eqn:Hcode;
    cbn [pbind]; [ | discriminate ].
  intros [= <- <- <-].
  split; [ reflexivity | ]. split; [ apply FindString_run_all | ].
  split; [ exact Hcode | ]. split.
  - unfold parseDbType in Hcode.
    destruct (switch_string _ parseDbType_cases) as [c' |] eqn:Hcase;
      [ | discriminate Hcode ].
    injection Hcode as ->. exact (proj1 (parseDbType_cases_inv _ _ Hcase)).
  - apply strconv_Atoi_digits, FindString_run_all.
Qed.

(** X2: whatever [parseFieldType] returns, the name is the first run of
    word bytes of the type string, the code is one of the closed set, and
    the length lies between 0 and the largest [int]; it panics exactly
    when that run is no known type name, with the panic of [parseDbType]. *)
Theorem parseFieldType_result `{GoRuntime} (typestr : string) :
  match parseFieldType typestr with
  | Done (name, code, length) =>
      name = FindString_run is_word typestr
      /\ string_forall is_word name = true
      /\ parseDbType name = Done code
      /\ code ∈ all_type_codes
      /\ (0 <= length <= maxInt64)%Z
  | Panic msg =>
      parseDbType (FindString_run is_word typestr) = Panic msg
  end.
Proof.
  destruct (parseFieldType typestr) as [[[name code] length] | msg] eqn:Hparse.
  - now apply parseFieldType_inv.
  - unfold parseFieldType in Hparse.
    destruct (parseDbType (FindString_run is_word typestr)) as [c | m];
      cbn [pbind] in Hparse; [ discriminate Hparse | ].
    now injection Hparse as ->.
Qed.

Lemma formatDbType_inv (code : Z) (name : string) :
  formatDbType code = Done name ->
  switch_string name parseDbType_cases = Some code
  /\ isASCII name = true /\ string_map lower_byte name = name.
Proof.
  unfold formatDbType, formatDbType_cases. cbn [switch_int]. intros Hformat.
  repeat (match type of Hformat with
          | match (if Z.eqb code ?label then _ else _) with _ => _ end = _ =>
              destruct (Z.eqb_spec code label) as [-> | _];
              [ injection Hformat as <-; repeat split | ]
          end).
  discriminate Hformat.
Qed.

Lemma parseFieldType_name_length `{GoRuntime} (name : string) (code n : Z) :
  formatDbType code = Done name ->
  (0 <= n <= maxInt64)%Z ->
  parseFieldType (name ++ "(" ++ fmt_d n ++ ")") = Done (name, code, n).
Proof.
  intros Hformat Hn.
  destruct (formatDbType_inv _ _ Hformat) as (Hcase & Hascii & Hlower).
  destruct (parseDbType_cases_inv _ _ Hcase) as (_ & _ & Hword & Hnodigit & Hne).
  destruct (fmt_d_uint n (proj1 Hn)) as (d & Hnil & Hd & _).
  assert (Hdigits : string_forall is_digit (fmt_d n) = true)
    by (rewrite Hd; apply string_of_uint_digits).
  assert (Htext : fmt_d n <> "")
    by (rewrite Hd; destruct d; [ contradiction | discriminate .. ]).
  unfold parseFieldType.
  change (name ++ "(" ++ fmt_d n ++ ")") with (name ++ String "(" (fmt_d n ++ ")")).
  rewrite (FindString_run_stop is_word name "(" _ Hword Hne eq_refl).
  rewrite (FindString_run_skip is_digit name _ Hnodigit).
  change (FindString_run is_digit (String "(" (fmt_d n ++ ")")))
    with (FindString_run is_digit (fmt_d n ++ String ")" "")).
  rewrite (FindString_run_stop is_digit (fmt_d n) ")" "" Hdigits Htext eq_refl).
  rewrite (strconv_Atoi_fmt_d n Hn).
  unfold parseDbType, strings_ToLower. rewrite Hascii, Hlower, Hcase. reflexivity.
Qed.

Lemma parseFieldType_name_only `{GoRuntime} (name : string) (code : Z) :
  formatDbType code = Done name ->
  parseFieldType name = Done (name, code, 0%Z).
Proof.
  intros Hformat.
  destruct (formatDbType_inv _ _ Hformat) as (Hcase & Hascii & Hlower).
  destruct (parseDbType_cases_inv _ _ Hcase) as (_ & _ & Hword & Hnodigit & Hne).
  unfold parseFieldType.
  rewrite (FindString_run_whole is_word name Hword).
  rewrite (FindString_run_none is_digit name Hnodigit).
  unfold parseDbType, strings_ToLower. rewrite Hascii, Hlower, Hcase. reflexivity.
Qed.

(** X3: the DDL type-clause of a field type reads back as the field type:
    when the name is the one [formatDbType] gives for the code, the length
    is a non-negative [int], and it is 0 for a code of the length-less
    set, [FieldType.Scan] of [ToSql()], as a string or as bytes, gives the
    field type again. *)
Theorem FieldType_Scan_ToSql `{GoRuntime} (t t0 : FieldType) :
  formatDbType (FieldType_Value t) = Done (FieldType_Name t) ->
  (0 <= FieldType_Length t <= maxInt64)%Z ->
  (FieldType_Value t ∈ lengthless_codes -> FieldType_Length t = 0%Z) ->
  FieldType_Scan t0 (SString (FieldType_ToSql t)) = Done (t, None)
  /\ FieldType_Scan t0 (SBytes (Some (FieldType_ToSql t))) = Done (t, None).
Proof.
  intros Hname Hlength Hbare. destruct t as [name code n]; cbn in *.
  assert (Hparse : parseFieldType
                     (FieldType_ToSql (mkFieldType name code n))
                   = Done (name, code, n)).
  { unfold FieldType_ToSql. rewrite case_int_elem_of.
    cbn [FieldType_Value FieldType_Name FieldType_Length].
    fold lengthless_codes.
    destruct (bool_decide (code ∈ lengthless_codes)) eqn:Hin.
    - apply bool_decide_eq_true_1 in Hin. rewrite (Hbare Hin).
      now apply parseFieldType_name_only.
    - now apply parseFieldType_name_length. }
  unfold FieldType_Scan. cbn [string_of_bytes default]. rewrite Hparse.
  split; reflexivity.
Qed.

Lemma FieldType_Scan_ToSql_witness :
  (formatDbType TypeVarchar = Done "varchar"
   /\ (0 <= 255 <= maxInt64)%Z
   /\ (TypeVarchar ∈ lengthless_codes -> 255%Z = 0%Z))
  /\ (@FieldType_Scan sample_runtime (mkFieldType "" 0 0)
        (SString (FieldType_ToSql (mkFieldType "varchar" TypeVarchar 255)))
      = Done (mkFieldType "varchar" TypeVarchar 255, None)
      /\ @FieldType_Scan sample_runtime (mkFieldType "" 0 0)
           (SBytes (Some (FieldType_ToSql (mkFieldType "varchar" TypeVarchar 255))))
         = Done (mkFieldType "varchar" TypeVarchar 255, None)).
Proof.
  assert (H1 : formatDbType TypeVarchar = Done "varchar") by reflexivity.
  assert (H2 : (0 <= 255 <= maxInt64)%Z) by (unfold maxInt64; lia).
  assert (H3 : TypeVarchar ∈ lengthless_codes -> 255%Z = 0%Z).
  { unfold lengthless_codes. intros Hin.
    repeat (apply elem_of_cons in Hin as [Hin | Hin]; [ discriminate Hin | ]).
    now apply elem_of_nil in Hin. }
  split; [ exact (conj H1 (conj H2 H3)) | ].
  exact (@FieldType_Scan_ToSql sample_runtime
           (mkFieldType "varchar" TypeVarchar 255) (mkFieldType "" 0 0) H1 H2 H3).
Defined.

(** ** Schema catalog, further *)

Section CatalogLoop.

Context `{G : GoRuntime} {D : SqlRuntime}.

Lemma classify_key_spec (table : Table) (row : Field) :
  Table_DbName (classify_key table row) = Table_DbName table
  /\ Table_TbName (classify_key table row) = Table_TbName table
  /\ Table_PrimaryKey (classify_key table row)
     = (if String.eqb (Field_Key row) "PRI" then Field_Name row
        else Table_PrimaryKey table)
  /\ Table_UniqueIndex (classify_key table row)
     = (Table_UniqueIndex table ++ unique_names [row])%list.
Proof.
  unfold classify_key, unique_names.
  destruct (String.eqb_spec (Field_Key row) "PRI") as [Hpri | Hpri].
  - rewrite filter_cons_False by (rewrite Hpri; discriminate).
    rewrite filter_nil. cbn. now rewrite app_nil_r.
  - destruct (String.eqb_spec (Field_Key row) "UNI") as [Huni | Huni].
    + rewrite filter_cons_True by assumption. rewrite filter_nil. repeat split.
    + rewrite filter_cons_False by assumption. rewrite filter_nil.
      cbn. now rewrite app_nil_r.
Qed.

Lemma unique_names_app (fs gs : list Field) :
  unique_names (fs ++ gs) = (unique_names fs ++ unique_names gs)%list.
Proof. unfold unique_names. now rewrite filter_app, map_app. Qed.

(** The loop, row by row: the fields it appends are those the rows give,
    in order; [keys] collects their qualified names, the primary key is
    overwritten by each [PRI] field and the unique index grows by each
    [UNI] field. *)
Lemma GetTable_loop_spec (rows : list ColumnRow) (table table' : Table)
    (keys keys' : list string) :
  GetTable_loop rows table keys = Done (inr (table', keys')) ->
  exists fs : list Field,
    Forall2 (fun cols field => row_field (Table_TbName table) cols = Done (inr field))
      rows fs
    /\ Table_Fields table' = (Table_Fields table ++ fs)%list
    /\ keys' = (keys ++ map Field_FullName fs)%list
    /\ Table_DbName table' = Table_DbName table
    /\ Table_TbName table' = Table_TbName table
    /\ Table_PrimaryKey table'
       = foldl (fun pk field => if String.eqb (Field_Key field) "PRI"
                                then Field_Name field else pk)
           (Table_PrimaryKey table) fs
    /\ Table_UniqueIndex table' = (Table_UniqueIndex table ++ unique_names fs)%list.
Proof.
  revert table keys. induction rows as [| cols rows IH]; intros table keys Hloop.
  - cbn in Hloop. injection Hloop as <- <-. exists [].
    cbn. rewrite !app_nil_r. repeat split. constructor.
  - cbn [GetTable_loop] in Hloop. unfold rbind at 1 in Hloop.
    destruct (scan_row cols) as [[err | [row nullable]] | msg] eqn:Hrow;
      try discriminate Hloop.
    set (field := mkField (Field_Name row)
                    (Table_TbName table ++ ".`" ++ Field_Name row ++ "`")
                    (Field_Type row) (parseNullable nullable) (Field_Key row)
                    (Field_Default row) (Field_Extra row) (Field_Comment row))
      in Hloop.
    apply IH in Hloop as (fs & Hrows & Hfields & Hkeys & Hdb & Htb & Hpk & Huni).
    destruct (classify_key_spec (append_field table field) field)
      as (Hcdb & Hctb & Hcpk & Hcuni).
    pose proof (classify_key_Fields (append_field table field) field) as [Hcf _].
    rewrite Hctb in Hrows, Htb. rewrite Hcf in Hfields. rewrite Hcdb in Hdb.
    rewrite Hcpk in Hpk. rewrite Hcuni in Huni.
    cbn [append_field Table_TbName Table_Fields Table_DbName Table_PrimaryKey
         Table_UniqueIndex] in *.
    exists (field :: fs). repeat split.
    + constructor; [ | exact Hrows ].
      unfold row_field, rbind. rewrite Hrow. reflexivity.
    + rewrite Hfields, <- app_assoc. reflexivity.
    + rewrite Hkeys, <- app_assoc. reflexivity.
    + exact Hdb.
    + exact Htb.
    + exact Hpk.
    + rewrite Huni, <- app_assoc. f_equal.
      change (field :: fs) with ([field] ++ fs)%list. now rewrite unique_names_app.
Qed.

(** What [GetTable] makes of the table and the keys that the loop leaves. *)
Lemma GetTable_finish_spec (tablename : string) (table t : Table)
    (keys : list string) :
  GetTable_finish tablename table keys = Done (inr t) ->
  t = mkTable (Table_DbName table) (Table_TbName table) (Table_Fields table)
        (Table_PrimaryKey table) (Table_UniqueIndex table)
        (Table_DbName table ++ "." ++ Table_TbName table)
        ("INSERT INTO " ++ (Table_DbName table ++ "." ++ Table_TbName table))
        ("SELECT " ++ strings_Join keys "," ++ " FROM "
         ++ (Table_DbName table ++ "." ++ Table_TbName table) ++ " ")
        ("DELETE FROM " ++ (Table_DbName table ++ "." ++ Table_TbName table))
        ("UPDATE " ++ (Table_DbName table ++ "." ++ Table_TbName table))
        ("SELECT COUNT(" ++ Table_PrimaryKey table ++ ") FROM "
         ++ (Table_DbName table ++ "." ++ Table_TbName table))
        (Table_sqlArgMark table)
        (Z.of_nat (length (Table_Fields table))).
Proof.
  unfold GetTable_finish.
  destruct (Z.of_nat (length (Table_Fields table)) =? 0)%Z; [ discriminate | ].
  intros Hfinish. injection Hfinish as <-. reflexivity.
Qed.

(** A successful [GetTable], taken apart. *)
Lemma GetTable_inv (db_name tablename : string) (cursor : Cursor) (t : Table) :
  GetTable db_name (inr cursor) tablename = Done (inr t) ->
  Cursor_Err cursor = None
  /\ Forall2 (fun cols field => row_field tablename cols = Done (inr field))
       (Cursor_rows cursor) (Table_Fields t)
  /\ Table_DbName t = db_name /\ Table_TbName t = tablename
  /\ Table_Fullname t = db_name ++ "." ++ tablename
  /\ Table_PrimaryKey t = last_primary (Table_Fields t)
  /\ Table_UniqueIndex t = unique_names (Table_Fields t)
  /\ Table_sqlInsert t = "INSERT INTO " ++ Table_Fullname t
  /\ Table_sqlDelete t = "DELETE FROM " ++ Table_Fullname t
  /\ Table_sqlUpdate t = "UPDATE " ++ Table_Fullname t
  /\ Table_sqlSelect t
     = "SELECT " ++ strings_Join (map Field_FullName (Table_Fields t)) ","
       ++ " FROM " ++ Table_Fullname t ++ " "
  /\ Table_sqlSelectCount t
     = "SELECT COUNT(" ++ Table_PrimaryKey t ++ ") FROM " ++ Table_Fullname t.
Proof.
  unfold GetTable. intros Hget. unfold rbind at 1 in Hget.
  destruct (GetTable_loop (Cursor_rows cursor) _ []) as [[e | [table keys]] | msg]
    eqn:Hloop; try discriminate Hget.
  destruct (Cursor_Err cursor); [ discriminate Hget | ].
  apply GetTable_loop_spec in Hloop
    as (fs & Hrows & Hfields & Hkeys & Hdb & Htb & Hpk & Huni).
  cbn in Hrows, Hfields, Hkeys, Hdb, Htb, Hpk, Huni.
  apply GetTable_finish_spec in Hget. subst t. cbn.
  rewrite Hfields, Hkeys, Hdb, Htb, Hpk, Huni. repeat split. exact Hrows.
Qed.

Lemma row_field_scan_row (tablename : string) (cols : ColumnRow) :
  row_field tablename cols
  = match scan_row cols with
    | Done (inr scanned) =>
        Done (inr (mkField (Field_Name (fst scanned))
                     (tablename ++ ".`" ++ Field_Name (fst scanned) ++ "`")
                     (Field_Type (fst scanned)) (parseNullable (snd scanned))
                     (Field_Key (fst scanned)) (Field_Default (fst scanned))
                     (Field_Extra (fst scanned)) (Field_Comment (fst scanned))))
    | Done (inl e) => Done (inl e)
    | Panic msg => Panic msg
    end.
Proof.
  unfold row_field, rbind. destruct (scan_row cols) as [[e | scanned] | msg]; reflexivity.
Qed.

Lemma row_field_FullName (tablename : string) (cols : ColumnRow) (field : Field) :
  row_field tablename cols = Done (inr field) ->
  Field_FullName field = tablename ++ ".`" ++ Field_Name field ++ "`".
Proof.
  rewrite row_field_scan_row.
  destruct (scan_row cols) as [[e | scanned] | msg]; try discriminate.
  intros Hfield. injection Hfield as <-. reflexivity.
Qed.

(** The loop over two runs of rows is the loop over the first, then over
    the second. *)
Lemma GetTable_loop_app (pre rest : list ColumnRow) (table : Table)
    (keys : list string) :
  GetTable_loop (pre ++ rest) table keys
  = rbind (GetTable_loop pre table keys)
      (fun looped => GetTable_loop rest (fst looped) (snd looped)).
Proof.
  revert table keys. induction pre as [| cols pre IH]; intros table keys;
    [ reflexivity | ].
  cbn [app GetTable_loop]. unfold rbind at 1 3.
  destruct (scan_row cols) as [[e | [row nullable]] | msg]; try reflexivity.
  apply IH.
Qed.

(** Rows that all scan leave a table and its keys. *)
Lemma GetTable_loop_good (tablename : string) (rows : list ColumnRow)
    (table : Table) (keys : list string) :
  Forall (fun cols => exists field, row_field tablename cols = Done (inr field)) rows ->
  exists table' keys', GetTable_loop rows table keys = Done (inr (table', keys')).
Proof.
  intros Hgood. revert table keys.
  induction Hgood as [| cols rows [field Hfield] _ IH]; intros table keys.
  - now exists table, keys.
  - cbn [GetTable_loop]. rewrite row_field_scan_row in Hfield. unfold rbind at 1.
    destruct (scan_row cols) as [[e | [row nullable]] | msg]; try discriminate Hfield.
    apply IH.
Qed.

(** The first row that does not scan ends the loop with its failure. *)
Lemma GetTable_loop_bad (tablename : string) (pre post : list ColumnRow)
    (bad : ColumnRow) (table : Table) (keys : list string) :
  Forall (fun cols => exists field, row_field tablename cols = Done (inr field)) pre ->
  (forall e, row_field tablename bad = Done (inl e) ->
     GetTable_loop (pre ++ bad :: post) table keys = Done (inl e))
  /\ (forall msg, row_field tablename bad = Panic msg ->
       GetTable_loop (pre ++ bad :: post) table keys = Panic msg).
Proof.
  intros Hgood. rewrite GetTable_loop_app.
  destruct (GetTable_loop_good tablename pre table keys Hgood) as (table' & keys' & ->).
  cbn [rbind fst snd GetTable_loop]. rewrite row_field_scan_row.
  split; intros failure Hbad; unfold rbind at 1;
    destruct (scan_row bad) as [[e | scanned] | msg]; try discriminate Hbad;
    injection Hbad as ->; try reflexivity.
  all: destruct scanned; reflexivity.
Qed.

End CatalogLoop.

(** X4: the fields of a table that [GetTable] returns are the fields of the
    catalog rows, one per row and in row order, each with the qualified
    name [table.`column`]; the statement prefixes are built from
    [db.table], and the SELECT prefix lists the qualified names of all
    fields, joined by commas. *)
Theorem GetTable_fields `{G : GoRuntime} {D : SqlRuntime}
    (db_name tablename : string) (cursor : Cursor) (t : Table) :
  GetTable db_name (inr cursor) tablename = Done (inr t) ->
  Forall2 (fun cols field => row_field tablename cols = Done (inr field))
    (Cursor_rows cursor) (Table_Fields t)
  /\ length (Table_Fields t) = length (Cursor_rows cursor)
  /\ Forall (fun field =>
               Field_FullName field = tablename ++ ".`" ++ Field_Name field ++ "`")
       (Table_Fields t)
  /\ Table_Fullname t = db_name ++ "." ++ tablename
  /\ Table_sqlSelect t
     = "SELECT " ++ strings_Join (map Field_FullName (Table_Fields t)) ","
       ++ " FROM " ++ (db_name ++ "." ++ tablename) ++ " "
  /\ Table_sqlInsert t = "INSERT INTO " ++ (db_name ++ "." ++ tablename)
  /\ Table_sqlDelete t = "DELETE FROM " ++ (db_name ++ "." ++ tablename)
  /\ Table_sqlUpdate t = "UPDATE " ++ (db_name ++ "." ++ tablename).
Proof.
  intros Hget.
  destruct (GetTable_inv _ _ _ _ Hget)
    as (_ & Hrows & _ & _ & Hfull & _ & _ & Hins & Hdel & Hupd & Hsel & _).
  rewrite Hfull in Hins, Hdel, Hupd, Hsel.
  split; [ exact Hrows | ].
  split; [ symmetry; exact (Forall2_length _ _ _ Hrows) | ].
  split; [ | repeat split; assumption ].
  clear -Hrows. induction Hrows as [| cols field rows fields Hfield _ IH];
    constructor; [ | exact IH ].
  exact (row_field_FullName _ _ _ Hfield).
Qed.

Lemma GetTable_fields_witness :
  @GetTable sample_runtime sample_sql "shop" (inr sample_cursor) "t"
  = Done (inr sample_table)
  /\ Table_sqlSelect sample_table
     = "SELECT " ++ strings_Join (map Field_FullName (Table_Fields sample_table)) ","
       ++ " FROM " ++ ("shop" ++ "." ++ "t") ++ " ".
Proof.
  assert (Hget : @GetTable sample_runtime sample_sql "shop" (inr sample_cursor) "t"
                 = Done (inr sample_table)) by reflexivity.
  split; [ exact Hget | ].
  destruct (@GetTable_fields sample_runtime sample_sql "shop" "t" sample_cursor
              sample_table Hget) as (_ & _ & _ & _ & Hsel & _).
  exact Hsel.
Defined.

Lemma last_primary_none (fields : list Field) (pk : string) :
  Forall (fun field => Field_Key field <> "PRI") fields ->
  foldl (fun pk field => if String.eqb (Field_Key field) "PRI" then Field_Name field
                         else pk) pk fields = pk.
Proof.
  intros Hnone. revert pk.
  induction Hnone as [| field fields Hkey _ IH]; intros pk; [ reflexivity | ].
  cbn [foldl]. destruct (String.eqb_spec (Field_Key field) "PRI"); [ contradiction | ].
  apply IH.
Qed.

(** X5: the primary key of a table that [GetTable] returns is the name of
    the last field marked [PRI], the empty string without one; its unique
    index holds the names of the fields marked [UNI], in field order; the
    COUNT statement counts the primary key, so without a [PRI] field it
    reads [COUNT()]. *)
Theorem GetTable_keys `{G : GoRuntime} {D : SqlRuntime}
    (db_name tablename : string) (cursor : Cursor) (t : Table) :
  GetTable db_name (inr cursor) tablename = Done (inr t) ->
  Table_PrimaryKey t = last_primary (Table_Fields t)
  /\ Table_UniqueIndex t = unique_names (Table_Fields t)
  /\ Table_sqlSelectCount t
     = "SELECT COUNT(" ++ last_primary (Table_Fields t) ++ ") FROM "
       ++ (db_name ++ "." ++ tablename)
  /\ (Forall (fun field => Field_Key field <> "PRI") (Table_Fields t) ->
      Table_PrimaryKey t = ""
      /\ Table_sqlSelectCount t
         = "SELECT COUNT(" ++ "" ++ ") FROM " ++ (db_name ++ "." ++ tablename)).
Proof.
  intros Hget.
  destruct (GetTable_inv _ _ _ _ Hget)
    as (_ & _ & _ & _ & Hfull & Hpk & Huni & _ & _ & _ & _ & Hcount).
  rewrite Hfull, Hpk in Hcount.
  split; [ exact Hpk | ]. split; [ exact Huni | ]. split; [ exact Hcount | ].
  intros Hnone.
  assert (Hlast : last_primary (Table_Fields t) = "")
    by (apply (last_primary_none _ "" Hnone)).
  rewrite Hcount, Hpk, Hlast. split; reflexivity.
Qed.

Lemma GetTable_keys_witness :
  @GetTable sample_runtime sample_sql "shop" (inr sample_cursor) "t"
  = Done (inr sample_table)
  /\ Table_PrimaryKey sample_table = last_primary (Table_Fields sample_table)
  /\ Table_UniqueIndex sample_table = unique_names (Table_Fields sample_table).
Proof.
  assert (Hget : @GetTable sample_runtime sample_sql "shop" (inr sample_cursor) "t"
                 = Done (inr sample_table)) by reflexivity.
  split; [ exact Hget | ].
  destruct (@GetTable_keys sample_runtime sample_sql "shop" "t" sample_cursor
              sample_table Hget) as (Hpk & Huni & _).
  split; assumption.
Defined.

(** X6: [GetTable] gives up at the first row that does not scan: it returns
    that row's error, or panics with that row's panic (an unknown column
    type among them), whatever rows follow and whatever [rows.Err()] holds.
    When all rows scan and [rows.Err()] holds an error, that error is
    returned and the rows read are dropped. An error of the catalog query
    is returned as it is. *)
Theorem GetTable_failure `{G : GoRuntime} {D : SqlRuntime}
    (db_name tablename : string) (pre post : list ColumnRow) (bad : ColumnRow)
    (err : option string) :
  Forall (fun cols => exists field, row_field tablename cols = Done (inr field)) pre ->
  (forall e, row_field tablename bad = Done (inl e) ->
     GetTable db_name (inr (mkCursor (pre ++ bad :: post) err)) tablename
     = Done (inl e))
  /\ (forall msg, row_field tablename bad = Panic msg ->
        GetTable db_name (inr (mkCursor (pre ++ bad :: post) err)) tablename
        = Panic msg)
  /\ (forall msg,
        GetTable db_name (inr (mkCursor pre (Some msg))) tablename
        = Done (inl (ErrLib msg)))
  /\ (forall msg, GetTable db_name (inl msg) tablename = Done (inl (ErrLib msg))).
Proof.
  intros Hgood. unfold GetTable. cbn [Cursor_rows Cursor_Err].
  set (table := mkTable db_name tablename [] "" [] "" "" "" "" "" "" [] 0).
  destruct (GetTable_loop_bad tablename pre post bad table [] Hgood) as [Herr Hpanic].
  split; [ | split; [ | split ] ].
  - intros e Hbad. now rewrite (Herr e Hbad).
  - intros msg Hbad. now rewrite (Hpanic msg Hbad).
  - intros msg.
    destruct (GetTable_loop_good tablename pre table [] Hgood) as (table' & keys' & ->).
    reflexivity.
  - reflexivity.
Qed.

Lemma GetTable_failure_witness :
  Forall (fun cols => exists field,
            @row_field sample_runtime sample_sql "t" cols = Done (inr field))
    [sample_column "id" "int(11)" "PRI"]
  /\ @GetTable sample_runtime sample_sql "shop"
       (inr (mkCursor ([sample_column "id" "int(11)" "PRI"]
                       ++ sample_column "flag" "tinyint(1)" ""
                          :: [sample_column "name" "varchar(255)" ""]) None)) "t"
     = Panic "db: parse type name error: tinyint".
Proof.
  assert (Hgood : Forall (fun cols => exists field,
                            @row_field sample_runtime sample_sql "t" cols
                            = Done (inr field))
                    [sample_column "id" "int(11)" "PRI"])
    by (constructor; [ eexists; reflexivity | constructor ]).
  split; [ exact Hgood | ].
  destruct (@GetTable_failure sample_runtime sample_sql "shop" "t"
              [sample_column "id" "int(11)" "PRI"]
              [sample_column "name" "varchar(255)" ""]
              (sample_column "flag" "tinyint(1)" "") None Hgood)
    as (_ & Hpanic & _).
  apply Hpanic. reflexivity.
Defined.

(** ** Value converter, further *)

Section Converter.

Context `{G : GoRuntime}.

Lemma assign_result (dest : Dest) (d : option loc) (c : Cell) (st : store) :
  Dest_loc dest = d -> Cell_fits dest c = true ->
  arm_result dest st (assign d c st).
Proof.
  intros Hloc Hfits. destruct d as [l |]; cbn.
  - right. split; [ reflexivity | ]. now exists l, c.
  - left. split; [ reflexivity | discriminate ].
Qed.

Lemma assign_parsed_result {A} (dest : Dest) (d : option loc) (parsed : string + A)
    (cell : A -> Cell) (st : store) :
  Dest_loc dest = d -> (forall a, Cell_fits dest (cell a) = true) ->
  arm_result dest st (assign_parsed d parsed cell st).
Proof.
  intros Hloc Hfits. destruct d as [l |]; cbn.
  - destruct parsed as [err | value].
    + left. split; [ reflexivity | discriminate ].
    + right. split; [ reflexivity | ]. exists l, (cell value). auto.
  - left. split; [ reflexivity | discriminate ].
Qed.

Lemma convert_int64_result (dest : Dest) (s : Z) (st : store) out :
  convert_int64 dest s st = Some out -> arm_result dest st out.
Proof.
  destruct dest; cbn; intros [= <-]; try (now apply assign_result).
  destruct d as [l |]; [ | left; split; [ reflexivity | discriminate ] ].
  destruct (s =? 0)%Z; [ right; split; [ reflexivity | now exists l, (CBool false) ] | ].
  destruct (s =? 1)%Z; [ right; split; [ reflexivity | now exists l, (CBool true) ] | ].
  left. split; [ reflexivity | discriminate ].
Qed.

Lemma convert_float64_result (dest : Dest) (s : float64) (st : store) out :
  convert_float64 dest s st = Some out -> arm_result dest st out.
Proof.
  destruct dest; cbn; intros [= <-]; try (now apply assign_result).
  destruct d as [l |]; [ | left; split; [ reflexivity | discriminate ] ].
  destruct (float64_eqb s float64_zero);
    [ right; split; [ reflexivity | now exists l, (CBool false) ] | ].
  destruct (float64_eqb s float64_one);
    [ right; split; [ reflexivity | now exists l, (CBool true) ] | ].
  left. split; [ reflexivity | discriminate ].
Qed.

Lemma convert_bool_result (dest : Dest) (s : bool) (st : store) out :
  convert_bool dest s st = Some out -> arm_result dest st out.
Proof. destruct dest; cbn; intros [= <-]; now apply assign_result. Qed.

Lemma convert_string_result (dest : Dest) (s : string) (st : store) out :
  convert_string dest s st = Some out -> arm_result dest st out.
Proof.
  destruct dest; cbn; intros [= <-];
    first [ now apply assign_result | now apply assign_parsed_result ].
Qed.

Lemma convert_time_result (dest : Dest) (s : Time) (st : store) out :
  convert_time dest s st = Some out -> arm_result dest st out.
Proof. destruct dest; cbn; intros [= <-]; now apply assign_result. Qed.

Lemma type_error_result (dest : Dest) (src : Src) (st : store) out :
  type_error dest src st = Done out -> arm_result dest st out.
Proof. intros [= <-]. left. split; [ reflexivity | discriminate ]. Qed.

Lemma convert_plain_result (dest : Dest) (src : Src) (st : store) out :
  convert_plain dest src st = Done out -> arm_result dest st out.
Proof.
  unfold convert_plain, or_type_error.
  destruct src; try apply type_error_result.
  - destruct (convert_int64 dest s st) eqn:Harm;
      [ intros [= <-]; eapply convert_int64_result, Harm | apply type_error_result ].
  - destruct (convert_float64 dest s st) eqn:Harm;
      [ intros [= <-]; eapply convert_float64_result, Harm | apply type_error_result ].
  - destruct (convert_bool dest s st) eqn:Harm;
      [ intros [= <-]; eapply convert_bool_result, Harm | apply type_error_result ].
  - destruct (convert_string dest s st) eqn:Harm;
      [ intros [= <-]; eapply convert_string_result, Harm | apply type_error_result ].
  - destruct (convert_time dest s st) eqn:Harm;
      [ intros [= <-]; eapply convert_time_result, Harm | apply type_error_result ].
Qed.

Lemma convert_bytes_result (dest : Dest) (s : GoBytes) (st : store) out :
  convert_bytes dest s st = Done out -> arm_result dest st out.
Proof.
  unfold convert_bytes. destruct dest; try apply convert_plain_result.
  intros [= <-]. now apply assign_result.
Qed.

(** Every call of [convertValue] with a destination that is no Scanner
    that returns, returns one of the two. *)
Lemma convertValue_result (dest : Dest) (src : Src) (st : store) out :
  as_Scanner dest = None ->
  convertValue dest src st = Done out -> arm_result dest st out.
Proof.
  intros Hdest. unfold convertValue.
  destruct (match as_Valuer src with Some value => value | None => Done src end)
    as [v | msg]; [ | discriminate ].
  cbn [pbind]. rewrite Hdest.
  destruct v; try apply type_error_result; try apply convert_plain_result;
    try apply convert_bytes_result;
    destruct p; cbn [deref]; try discriminate;
    first [ apply convert_plain_result | apply convert_bytes_result ].
Qed.

Lemma convert_plain_returns (dest : Dest) (src : Src) (st : store) :
  exists out, convert_plain dest src st = Done out.
Proof.
  unfold convert_plain, or_type_error, type_error.
  destruct src; try (eexists; reflexivity);
    match goal with |- context [match ?arm with _ => _ end] => destruct arm end;
    eexists; reflexivity.
Qed.

Lemma convert_bytes_returns (dest : Dest) (s : GoBytes) (st : store) :
  exists out, convert_bytes dest s st = Done out.
Proof.
  unfold convert_bytes. destruct dest; try apply convert_plain_returns.
  eexists; reflexivity.
Qed.

End Converter.

(** X7: a failed conversion assigns nothing: when [convertValue], with a
    destination that is no Scanner, returns an error, the store is the one
    it was given. *)
Theorem convertValue_error_keeps_store `{GoRuntime}
    (dest : Dest) (src : Src) (st st' : store) (e : Error) :
  as_Scanner dest = None ->
  convertValue dest src st = Done (st', Some e) ->
  st' = st.
Proof.
  intros Hdest Hconv.
  destruct (convertValue_result dest src st _ Hdest Hconv) as [[Hst _] | [Herr _]].
  - exact Hst.
  - discriminate Herr.
Qed.

Lemma convertValue_error_keeps_store_witness :
  (@as_Scanner sample_runtime (DPtrInt64 (Some 1%positive)) = None
   /\ @convertValue sample_runtime (DPtrInt64 (Some 1%positive)) (SString "12x")
        sample_store
      = Done (sample_store, Some (ErrLib "invalid syntax")))
  /\ sample_store = sample_store.
Proof.
  split; [ split; reflexivity | ].
  apply (@convertValue_error_keeps_store sample_runtime (DPtrInt64 (Some 1%positive))
           (SString "12x") sample_store sample_store (ErrLib "invalid syntax"));
    reflexivity.
Defined.

(** X8: a successful conversion writes the destination and nothing else:
    when [convertValue], with a destination that is no Scanner, returns
    no error, the destination is a non-nil pointer, the cell it points to
    now holds a value of the pointed-to type, and every other cell of the
    store is as it was. *)
Theorem convertValue_success_frame `{GoRuntime}
    (dest : Dest) (src : Src) (st st' : store) :
  as_Scanner dest = None ->
  convertValue dest src st = Done (st', None) ->
  exists (l : loc) (c : Cell),
    Dest_loc dest = Some l
    /\ Cell_fits dest c = true
    /\ st' !! l = Some c
    /\ forall l' : loc, l' <> l -> st' !! l' = st !! l'.
Proof.
  intros Hdest Hconv.
  destruct (convertValue_result dest src st _ Hdest Hconv)
    as [[_ Herr] | (_ & l & c & Hloc & Hfits & Hst)].
  - now destruct Herr.
  - cbn in Hst. subst st'. exists l, c. repeat split; try assumption.
    + apply lookup_insert_eq.
    + intros l' Hl'. now apply lookup_insert_ne.
Qed.

Lemma convertValue_success_frame_witness :
  (@as_Scanner sample_runtime (DPtrString (Some 2%positive)) = None
   /\ @convertValue sample_runtime (DPtrString (Some 2%positive)) (SInt64 42)
        sample_store
      = Done (<[ 2%positive := @CString sample_runtime "42" ]> sample_store, None))
  /\ exists (l : loc) (c : @Cell sample_runtime),
       @Dest_loc sample_runtime (DPtrString (Some 2%positive)) = Some l
       /\ Cell_fits (DPtrString (Some 2%positive)) c = true
       /\ (<[ 2%positive := @CString sample_runtime "42" ]> sample_store) !! l = Some c
       /\ forall l' : loc, l' <> l ->
            (<[ 2%positive := @CString sample_runtime "42" ]> sample_store) !! l'
            = sample_store !! l'.
Proof.
  split; [ split; reflexivity | ].
  apply (@convertValue_success_frame sample_runtime (DPtrString (Some 2%positive))
           (SInt64 42) sample_store); reflexivity.
Defined.

(** X9: with a destination that is no Scanner, [convertValue] panics in
    two cases only: the [Value()] of a Valuer source panics, or the
    source, after [Value()], is a nil pointer of one of the six pointer
    types. A nil destination pointer never makes it panic. *)
Theorem convertValue_panics `{GoRuntime}
    (dest : Dest) (src : Src) (st : store) (msg : string) :
  as_Scanner dest = None ->
  convertValue dest src st = Panic msg
  <-> (unwrap_Valuer src = Panic msg
       \/ (msg = nil_deref
           /\ exists v, unwrap_Valuer src = Done v /\ is_nil_pointer v = true)).
Proof.
  intros Hdest. unfold convertValue, unwrap_Valuer.
  destruct (match as_Valuer src with Some value => value | None => Done src end)
    as [v | m]; cbn [pbind].
  - rewrite Hdest. split.
    + intros Hpanic. right.
      destruct v; lazy beta iota in Hpanic;
        repeat match type of Hpanic with
               | deref ?p _ = _ => destruct p; cbn [deref] in Hpanic
               | convert_plain ?d ?s ?st = _ =>
                   destruct (convert_plain_returns d s st) as [out Hout];
                   rewrite Hout in Hpanic
               | convert_bytes ?d ?s ?st = _ =>
                   destruct (convert_bytes_returns d s st) as [out Hout];
                   rewrite Hout in Hpanic
               end;
        try discriminate Hpanic;
        injection Hpanic as <-; (split; [ reflexivity | eexists; split; reflexivity ]).
    + intros [Hpanic | (-> & v' & [= <-] & Hnil)]; [ discriminate Hpanic | ].
      destruct v; try discriminate Hnil; destruct p; try discriminate Hnil; reflexivity.
  - split.
    + intros [= ->]. now left.
    + intros [[= ->] | (_ & v & Hv & _)]; [ reflexivity | discriminate Hv ].
Qed.

Lemma convertValue_panics_witness :
  @as_Scanner sample_runtime (DPtrInt64 None) = None
  /\ (@convertValue sample_runtime (DPtrInt64 None) (SPtrInt64 None) ∅ = Panic nil_deref
      <-> (@unwrap_Valuer sample_runtime (SPtrInt64 None) = Panic nil_deref
           \/ (nil_deref = nil_deref
               /\ exists v, @unwrap_Valuer sample_runtime (SPtrInt64 None) = Done v
                            /\ is_nil_pointer v = true))).
Proof.
  split; [ reflexivity | ].
  apply (@convertValue_panics sample_runtime (DPtrInt64 None) (SPtrInt64 None) ∅
           nil_deref).
  reflexivity.
Defined.

(** X10: the integer that [convertValue] stores for a boolean converts back
    to that boolean: a [bool] written into an [*int64] cell, then read
    through the pointer into a [*bool] cell, gives the boolean again; and
    an integer converts to a boolean only if it is one of the two that
    booleans are stored as. *)
Theorem convertValue_bool_int64 `{GoRuntime} (b : bool) (l1 l2 : loc) (st : store) :
  exists n : Z,
    convertValue (DPtrInt64 (Some l1)) (SBool b) st
    = Done (<[l1 := CInt64 n]> st, None)
    /\ convertValue (DPtrBool (Some l2)) (SPtrInt64 (Some n)) (<[l1 := CInt64 n]> st)
       = Done (<[l2 := CBool b]> (<[l1 := CInt64 n]> st), None)
    /\ forall (m : Z) (st' : store),
         convertValue (DPtrBool (Some l2)) (SInt64 m) st = Done (st', None) ->
         exists b' : bool,
           convertValue (DPtrInt64 (Some l1)) (SBool b') st
           = Done (<[l1 := CInt64 m]> st, None).
Proof.
  exists (if b then 1%Z else 0%Z). split; [ reflexivity | ].
  split; [ destruct b; reflexivity | ].
  intros m st'. unfold convertValue. cbn.
  destruct (Z.eqb_spec m 0) as [-> | _]; [ intros _; now exists false | ].
  destruct (Z.eqb_spec m 1) as [-> | _]; [ intros _; now exists true | ].
  discriminate.
Qed.

(** X11: what a nullable wrapper yields after a scan is what it scanned:
    after [Scan(value)], [Value()] of a [NullTime] is [value] itself when
    [value] is a time and nil otherwise, and [Value()] of a [NullBytes] is
    [value] itself when it is a byte sequence and nil otherwise; a wrapper
    that scanned a time converts into a [*time.Time] cell as that time. *)
Theorem Null_Scan_Value `{GoRuntime} (nt : NullTime) (nb : NullBytes) (value : Src) :
  fst (NullTime_Value (fst (NullTime_Scan nt value)))
  = match value with
    | STime _ => value
    | _ => SNil
    end
  /\ fst (NullBytes_Value (fst (NullBytes_Scan nb value)))
     = match value with
       | SBytes _ => value
       | _ => SNil
       end
  /\ snd (NullTime_Value (fst (NullTime_Scan nt value))) = None
  /\ snd (NullBytes_Value (fst (NullBytes_Scan nb value))) = None
  /\ forall (t : Time) (l : loc) (st : store),
       convertValue (DPtrTime (Some l))
         (SPtrNullTime (Some (fst (NullTime_Scan nt (STime t))))) st
       = Done (<[l := CTime t]> st, None).
Proof.
  repeat split; try (destruct value; reflexivity).
Qed.

(** ** Row mapper, further *)

Section RowMapper.

Context `{G : GoRuntime} {D : SqlRuntime}.

(** The loop of [makeNullableScans] fills one entry per field from [i] on. *)
Lemma fill_scans_fits (fields : list Field) (i : nat) (scans : list (option Scratch)) :
  (i + length fields <= length scans)%nat ->
  fill_scans fields i scans
  = Done (take i scans ++ new_scans fields ++ drop (i + length fields) scans)%list.
Proof.
  revert i scans. induction fields as [| field fields IH]; intros i scans Hlen.
  - cbn [fill_scans length new_scans map app]. rewrite Nat.add_0_r.
    now rewrite take_drop.
  - cbn [fill_scans length] in *.
    destruct (Nat.ltb_spec i (length scans)) as [Hi | Hi]; [ | lia ].
    rewrite IH by (rewrite length_insert; lia).
    rewrite (take_S_r _ _ _ (list_lookup_insert_eq scans i _ Hi)).
    rewrite take_insert_ge by lia. rewrite drop_insert_lt by lia.
    cbn [new_scans map]. rewrite <- app_assoc. cbn [app].
    replace (S i + length fields)%nat with (i + S (length fields))%nat by lia.
    reflexivity.
Qed.


Lemma makeNullableScans_invariant (t : Table) :
  Table_invariant t -> makeNullableScans t = Done (new_scans (Table_Fields t)).
Proof.
  intros [HLen _]. unfold makeNullableScans. rewrite HLen.
  destruct (Z.ltb_spec (Z.of_nat (length (Table_Fields t))) 0); [ lia | ].
  rewrite Nat2Z.id, fill_scans_fits by (rewrite length_replicate; lia).
  cbn [take app Nat.add]. rewrite drop_replicate, Nat.sub_diag. cbn.
  now rewrite app_nil_r.
Qed.

Lemma new_scans_length (fields : list Field) :
  length (new_scans fields) = length fields.
Proof. unfold new_scans. now rewrite length_map. Qed.

(** The library's scan leaves one cell per destination. *)
Lemma scan_columns_length (scans : list (option Scratch)) (values : list Src)
    (index : nat) (cells : list Scratch) :
  scan_columns index scans values = Done (inr cells) ->
  length scans = length values ->
  length cells = length scans.
Proof.
  revert values index cells.
  induction scans as [| cell scans IH]; intros [| value values] index cells;
    cbn [scan_columns]; intros Hscan Hlen; try discriminate.
  - now injection Hscan as <-.
  - destruct cell as [cell |]; [ | discriminate Hscan ].
    unfold rbind at 1 in Hscan.
    destruct (scan_nullable index cell value) as [[err | cell'] | msg];
      try discriminate Hscan.
    unfold rbind at 1 in Hscan.
    destruct (scan_columns (S index) scans values) as [[err | rest] | msg] eqn:Hrest;
      try discriminate Hscan.
    injection Hscan as <-. cbn [length]. f_equal.
    apply (IH values (S index) rest Hrest). cbn in Hlen. lia.
Qed.

(** After the first phase there is one cell per field and one column per
    field. *)
Lemma Row_scratch_length (t : Table) (values : list Src) (cells : list Scratch) :
  Table_invariant t ->
  Row_scratch t (inr values) = Done (inr cells) ->
  length cells = length (Table_Fields t)
  /\ length values = length (Table_Fields t)
  /\ scan_columns 0 (new_scans (Table_Fields t)) values = Done (inr cells).
Proof.
  intros Hinv. unfold Row_scratch, sql_Row_Scan.
  rewrite (makeNullableScans_invariant t Hinv). cbn [pbind].
  destruct (Nat.eqb_spec (length (new_scans (Table_Fields t))) (length values))
    as [Hlen | _]; [ | discriminate ].
  intros Hscan. pose proof (scan_columns_length _ _ _ _ Hscan Hlen) as Hcells.
  rewrite new_scans_length in Hlen, Hcells. repeat split; [ lia | lia | exact Hscan ].
Qed.

(** [parseValue] of a scratch cell is the value the cell stands for. *)
Lemma parseValue_Scratch (cell : Scratch) :
  parseValue (Scratch_src cell) = Done (Scratch_value cell).
Proof.
  destruct cell as [v valid | nt | v valid | v valid | nb]; cbn.
  - now destruct valid.
  - unfold NullTime_Value. now destruct (NullTime_Valid nt).
  - now destruct valid.
  - now destruct valid.
  - unfold NullBytes_Value. now destruct (NullBytes_Valid nb).
Qed.

Lemma Scratch_value_plain (cell : Scratch) : is_plain_value (Scratch_value cell) = true.
Proof.
  destruct cell as [v valid | nt | v valid | v valid | nb]; cbn;
    try (now destruct valid).
  - now destruct (NullTime_Valid nt).
  - now destruct (NullBytes_Valid nb).
Qed.

Lemma parseSlice_loop_fits (cells : list Scratch) (i : nat) (data : list Src) :
  (i + length cells <= length data)%nat ->
  parseSlice_loop (map Scratch_src cells) i data
  = Done (take i data ++ map Scratch_value cells ++ drop (i + length cells) data)%list.
Proof.
  revert i data. induction cells as [| cell cells IH]; intros i data Hlen.
  - cbn [map parseSlice_loop length app]. rewrite Nat.add_0_r. now rewrite take_drop.
  - cbn [map parseSlice_loop length] in *. rewrite parseValue_Scratch. cbn [pbind].
    destruct (Nat.ltb_spec i (length data)) as [Hi | Hi]; [ | lia ].
    rewrite IH by (rewrite length_insert; lia).
    rewrite (take_S_r _ _ _ (list_lookup_insert_eq data i _ Hi)).
    rewrite take_insert_ge by lia. rewrite drop_insert_lt by lia.
    rewrite <- app_assoc. cbn [app].
    replace (S i + length cells)%nat with (i + S (length cells))%nat by lia.
    reflexivity.
Qed.

Lemma parseSlice_cells (t : Table) (cells : list Scratch) :
  Table_invariant t -> length cells = length (Table_Fields t) ->
  parseSlice t (map Scratch_src cells) = Done (map Scratch_value cells).
Proof.
  intros [HLen _] Hcells. unfold parseSlice. rewrite HLen.
  destruct (Z.ltb_spec (Z.of_nat (length (Table_Fields t))) 0); [ lia | ].
  rewrite Nat2Z.id, parseSlice_loop_fits by (rewrite length_replicate; lia).
  cbn [take app Nat.add]. rewrite Hcells, drop_replicate, Nat.sub_diag. cbn.
  now rewrite app_nil_r.
Qed.

(** A column that is NULL leaves its cell without a value. *)
Lemma scan_columns_null_value (scans : list (option Scratch)) (values : list Src)
    (index : nat) (cells : list Scratch) (i : nat) :
  scan_columns index scans values = Done (inr cells) ->
  length scans = length values ->
  values !! i = Some SNil ->
  Scratch_value <$> cells !! i = Some SNil.
Proof.
  intros Hscan Hlen Hi.
  destruct (scan_columns_null _ _ _ _ _ Hscan Hlen Hi) as (cell & -> & Hnull).
  cbn. f_equal.
  destruct cell as [v valid | nt | v valid | v valid | nb]; cbn in Hnull |- *.
  - destruct valid; [ discriminate Hnull | reflexivity ].
  - unfold NullTime_Value in Hnull. destruct (NullTime_Valid nt);
      [ discriminate Hnull | reflexivity ].
  - destruct valid; [ discriminate Hnull | reflexivity ].
  - destruct valid; [ discriminate Hnull | reflexivity ].
  - unfold NullBytes_Value in Hnull. destruct (NullBytes_Valid nb);
      [ discriminate Hnull | reflexivity ].
Qed.

(** The loop of [parseMap] over scratch cells: every field name gets an
    entry, a name outside the fields keeps its entry, and a field whose
    name no later field repeats gets the value of its own cell. *)
Lemma parseMap_loop_cells (cells : list Scratch) (fields : list Field) (i : nat)
    (data : gmap string Src) :
  (i + length fields <= length cells)%nat ->
  exists m : gmap string Src,
    parseMap_loop fields i (map Scratch_src cells) data = Done m
    /\ (forall name, name ∉ map Field_Name fields -> m !! name = data !! name)
    /\ (forall name, name ∈ map Field_Name fields -> is_Some (m !! name))
    /\ (forall k field,
          fields !! k = Some field ->
          (forall j field', (k < j)%nat -> fields !! j = Some field' ->
             Field_Name field' <> Field_Name field) ->
          m !! Field_Name field = Scratch_value <$> cells !! (i + k)%nat).
Proof.
  revert i data. induction fields as [| field fields IH]; intros i data Hlen.
  - exists data. cbn. repeat split; try done.
    intros name Hname. now apply elem_of_nil in Hname.
  - cbn [parseMap_loop length] in *.
    destruct (lookup_lt_is_Some_2 cells i ltac:(lia)) as [cell Hcell].
    rewrite list_lookup_fmap, Hcell. cbn [fmap option_fmap option_map].
    rewrite parseValue_Scratch. cbn [pbind].
    destruct (IH (S i) (<[Field_Name field := Scratch_value cell]> data) ltac:(lia))
      as (m & Hloop & Hout & Hin & Hown).
    exists m. split; [ exact Hloop | ]. split; [ | split ].
    + intros name Hname. cbn [map] in Hname. apply not_elem_of_cons in Hname as [Hne Hname].
      rewrite (Hout name Hname). now apply lookup_insert_ne.
    + intros name Hname. cbn [map] in Hname. apply elem_of_cons in Hname as [-> | Hname].
      * destruct (decide (Field_Name field ∈ map Field_Name fields)) as [Hlater | Hlater].
        -- now apply Hin.
        -- rewrite (Hout _ Hlater), lookup_insert_eq. eauto.
      * now apply Hin.
    + intros [| k] fk Hk Hlast.
      * injection Hk as ->. rewrite Nat.add_0_r, Hcell. cbn.
        rewrite Hout, lookup_insert_eq; [ reflexivity | ].
        intros Hname. apply list_elem_of_fmap in Hname as (field' & Heq & Hfield').
        apply list_elem_of_lookup in Hfield' as [j Hj].
        apply (Hlast (S j) field'); [ lia | exact Hj | now symmetry ].
      * cbn in Hk. replace (i + S k)%nat with (S i + k)%nat by lia.
        apply Hown; [ exact Hk | ].
        intros j field' Hj Hfield'. apply (Hlast (S j) field'); [ lia | exact Hfield' ].
Qed.

End RowMapper.


(** X14: on a table that keeps the invariant, [Row.Slice] returns one
    value per field: the value each scratch cell stands for, which is nil
    for a column that was NULL and never a pointer or a wrapper. *)
Theorem Row_Slice_values `{G : GoRuntime} {D : SqlRuntime}
    (t : Table) (values : list Src) (data : list Src) :
  Table_invariant t ->
  Row_Slice t (inr values) = Done (inr data) ->
  length data = length (Table_Fields t)
  /\ length values = length (Table_Fields t)
  /\ (exists cells, Row_scratch t (inr values) = Done (inr cells)
                    /\ data = map Scratch_value cells)
  /\ (forall i, values !! i = Some SNil -> data !! i = Some SNil)
  /\ Forall (fun v => is_plain_value v = true) data.
Proof.
  intros Hinv. unfold Row_Slice. unfold rbind at 1.
  destruct (Row_scratch t (inr values)) as [[err | cells] | msg] eqn:Hscratch;
    try discriminate.
  destruct (Row_scratch_length t values cells Hinv Hscratch) as (Hcells & Hvalues & Hscan).
  rewrite (parseSlice_cells t cells Hinv Hcells). cbn [pbind ret].
  intros [= <-]. split; [ now rewrite length_map | ]. split; [ exact Hvalues | ].
  split; [ now exists cells | ]. split.
  - intros i Hi. rewrite list_lookup_fmap.
    apply (scan_columns_null_value _ _ _ _ _ Hscan); [ | exact Hi ].
    now rewrite new_scans_length.
  - apply Forall_forall. intros v Hv.
    apply list_elem_of_fmap in Hv as (cell & -> & _). apply Scratch_value_plain.
Qed.

Lemma Row_Slice_values_witness :
  (Table_invariant sample_table
   /\ @Row_Slice sample_runtime sample_sql sample_table
        (inr [SInt64 7; SNil; SInt64 3])
      = Done (inr [SInt64 7; SNil; SInt64 3]))
  /\ length [@SInt64 sample_runtime 7; SNil; SInt64 3] = length (Table_Fields sample_table)
  /\ length [@SInt64 sample_runtime 7; SNil; SInt64 3] = length (Table_Fields sample_table).
Proof.
  assert (Hinv : Table_invariant sample_table) by (split; reflexivity).
  assert (Hslice : @Row_Slice sample_runtime sample_sql sample_table
                     (inr [SInt64 7; SNil; SInt64 3])
                   = Done (inr [SInt64 7; SNil; SInt64 3])) by reflexivity.
  split; [ split; assumption | ].
  destruct (@Row_Slice_values sample_runtime sample_sql sample_table
              [SInt64 7; SNil; SInt64 3] [SInt64 7; SNil; SInt64 3] Hinv Hslice)
    as (Hdata & Hvalues & _).
  split; assumption.
Defined.

(** X15: [Row.Map] and [Row.Slice] agree: on a table that keeps the
    invariant, whenever [Row.Slice] returns the values of a row,
    [Row.Map] returns a mapping whose keys are exactly the field names,
    and under the name of a field that no later field repeats it holds the
    value [Row.Slice] has at that field's position. *)
Theorem Row_Map_Slice `{G : GoRuntime} {D : SqlRuntime}
    (t : Table) (values : list Src) (data : list Src) :
  Table_invariant t ->
  Row_Slice t (inr values) = Done (inr data) ->
  exists m : gmap string Src,
    Row_Map t (inr values) = Done (inr m)
    /\ (forall name, is_Some (m !! name) <-> name ∈ map Field_Name (Table_Fields t))
    /\ (forall i field,
          Table_Fields t !! i = Some field ->
          (forall j field', (i < j)%nat -> Table_Fields t !! j = Some field' ->
             Field_Name field' <> Field_Name field) ->
          m !! Field_Name field = data !! i).
Proof.
  intros Hinv. unfold Row_Slice, Row_Map. unfold rbind at 1 2.
  destruct (Row_scratch t (inr values)) as [[err | cells] | msg] eqn:Hscratch;
    try discriminate.
  destruct (Row_scratch_length t values cells Hinv Hscratch) as (Hcells & _ & _).
  rewrite (parseSlice_cells t cells Hinv Hcells). cbn [pbind ret].
  intros [= <-]. unfold parseMap.
  destruct (parseMap_loop_cells cells (Table_Fields t) 0 ∅ ltac:(cbn; lia))
    as (m & -> & Hout & Hin & Hown).
  exists m. split; [ reflexivity | ]. split.
  - intros name. split; [ | apply Hin ].
    intros Hsome. destruct (decide (name ∈ map Field_Name (Table_Fields t)));
      [ assumption | ].
    rewrite (Hout name) in Hsome by assumption.
    rewrite lookup_empty in Hsome. now destruct Hsome.
  - intros i field Hi Hlast. rewrite (Hown i field Hi Hlast).
    cbn [Nat.add]. now rewrite list_lookup_fmap.
Qed.

Lemma Row_Map_Slice_witness :
  (Table_invariant sample_table
   /\ @Row_Slice sample_runtime sample_sql sample_table
        (inr [SInt64 7; SNil; SInt64 3])
      = Done (inr [SInt64 7; SNil; SInt64 3]))
  /\ exists m : gmap string (@Src sample_runtime),
       @Row_Map sample_runtime sample_sql sample_table (inr [SInt64 7; SNil; SInt64 3])
       = Done (inr m)
       /\ (forall name,
             is_Some (m !! name) <-> name ∈ map Field_Name (Table_Fields sample_table)).
Proof.
  assert (Hinv : Table_invariant sample_table) by (split; reflexivity).
  assert (Hslice : @Row_Slice sample_runtime sample_sql sample_table
                     (inr [SInt64 7; SNil; SInt64 3])
                   = Done (inr [SInt64 7; SNil; SInt64 3])) by reflexivity.
  split; [ split; assumption | ].
  destruct (@Row_Map_Slice sample_runtime sample_sql sample_table
              [SInt64 7; SNil; SInt64 3] [SInt64 7; SNil; SInt64 3] Hinv Hslice)
    as (m & Hmap & Hkeys & _).
  exists m. split; assumption.
Defined.

Example Row_Map_sample :
  @Row_Map sample_runtime sample_sql sample_table (inr [SInt64 7; SNil; SInt64 3])
  = Done (inr {[ "id" := SInt64 7; "name" := SNil; "score" := SInt64 3 ]}).
Proof. reflexivity. Qed.


Lemma Row_Scan_null_witness :
  (@Row_Scan sample_runtime sample_sql sample_table
     (inr [SInt64 7; SBytes (Some "ann"); SNil])
     [DPtrInt64 (Some 1%positive); DPtrString (Some 2%positive); DNil] ∅
   = Done ({[ 1%positive := CInt64 7; 2%positive := CString "ann" ]}, None)
   /\ [@DPtrInt64 sample_runtime (Some 1%positive); DPtrString (Some 2%positive); DNil]
        !! 1%nat = Some (DPtrString (Some 2%positive))
   /\ @is_nil_dest sample_runtime (DPtrString (Some 2%positive)) = false
   /\ @as_Scanner sample_runtime (DPtrString (Some 2%positive)) = None)
  /\ [@SInt64 sample_runtime 7; SBytes (Some "ann"); SNil] !! 1%nat <> Some SNil.
Proof.
  split; [ repeat split | ].
  apply (@Row_Scan_null sample_runtime sample_sql sample_table
           [SInt64 7; SBytes (Some "ann"); SNil]
           [DPtrInt64 (Some 1%positive); DPtrString (Some 2%positive); DNil]
           ∅ {[ 1%positive := CInt64 7; 2%positive := CString "ann" ]}
           1%nat (DPtrString (Some 2%positive))); reflexivity.
Defined.

(** ** Query builder, further *)

Section Builder.

Context `{G : GoRuntime}.



(** The loop over two lists is the loop over the first, then over the
    second from where the first ended. *)
Lemma positional_app (fields : list Field) (suffix : string) (args more : list Src)
    (i : nat) (keys : list string) (params : list Src) :
  positional fields suffix i (args ++ more) keys params
  = pbind (positional fields suffix i args keys params)
      (fun built => positional fields suffix (i + length args) more
                      (fst built) (snd built)).
Proof.
  revert i keys params. induction args as [| arg args IH]; intros i keys params.
  - cbn. now rewrite Nat.add_0_r.
  - cbn [app positional length]. destruct (is_nil arg).
    + rewrite IH. now replace (S i + length args)%nat with (i + S (length args))%nat by lia.
    + destruct (fields !! i); [ | reflexivity ].
      rewrite IH. now replace (S i + length args)%nat with (i + S (length args))%nat by lia.
Qed.

(** Nil elements at the end of the list change nothing. *)
Lemma positional_padding (fields : list Field) (suffix : string) (args : list Src)
    (n : nat) :
  positional fields suffix 0 (args ++ replicate n SNil) [] []
  = positional fields suffix 0 args [] [].
Proof.
  rewrite positional_app.
  destruct (positional fields suffix 0 args [] []) as [[keys params] | msg];
    [ | reflexivity ].
  cbn [pbind fst snd]. apply positional_all_nil.
  apply Forall_forall. intros arg Harg. now apply elem_of_replicate in Harg as [-> _].
Qed.

End Builder.


Example Get_beyond_fields :
  @Table_Get sample_runtime sample_table [SNil; SNil; SNil; SInt64 1]
  = Panic index_out_of_range.
Proof. reflexivity. Qed.

(** X17: nil arguments at the end of a positional list change nothing:
    every operation builds for the padded list what it builds for the
    list itself. *)
Theorem positional_operations_padding `{GoRuntime} (t : Table) (args : list Src)
    (n : nat) :
  Table_Add t (args ++ replicate n SNil) = Table_Add t args
  /\ Table_Get t (args ++ replicate n SNil) = Table_Get t args
  /\ Table_GetMany t (args ++ replicate n SNil) = Table_GetMany t args
  /\ Table_Find t (args ++ replicate n SNil) = Table_Find t args
  /\ Table_FindMany t (args ++ replicate n SNil) = Table_FindMany t args
  /\ Table_Del t (args ++ replicate n SNil) = Table_Del t args
  /\ Table_CountBy t (args ++ replicate n SNil) = Table_CountBy t args
  /\ Table_Update t (args ++ replicate n SNil) = Table_Update t args
  /\ Table_UpdateMany t (args ++ replicate n SNil) = Table_UpdateMany t args.
Proof.
  unfold Table_Add, Table_Get, Table_GetMany, Table_Find, Table_FindMany, Table_Del,
    Table_CountBy, Table_Update, Table_UpdateMany.
  rewrite !positional_padding. repeat split.
Qed.

(** X18: an update binds the SET values before the WHERE values: for
    positional lists within the fields, [Update(args)] followed by
    [Values(values)] executes [UPDATE ... SET] with one [field=?] per
    non-nil value, joined by commas, then the WHERE clause of [args] with
    [limit 1], and its arguments are the non-nil values followed by the
    non-nil [args]. [UpdateMany] does the same without the limit. *)
Theorem Update_Values_statement `{GoRuntime} (t : Table) (args values : list Src) :
  positions_in_range (Table_Fields t) args ->
  positions_in_range (Table_Fields t) values ->
  pbind (Table_Update t args) (fun s => Setter_Values s values)
  = Done (Table_sqlUpdate t ++ " SET "
          ++ strings_Join (selected_predicates (Table_Fields t) values) ", "
          ++ " "
          ++ ("WHERE " ++ strings_Join (selected_predicates (Table_Fields t) args) " AND "
              ++ " limit 1"),
          (selected_params (Table_Fields t) values
           ++ selected_params (Table_Fields t) args)%list)
  /\ pbind (Table_UpdateMany t args) (fun s => Setter_Values s values)
     = Done (Table_sqlUpdate t ++ " SET "
             ++ strings_Join (selected_predicates (Table_Fields t) values) ", "
             ++ " "
             ++ ("WHERE "
                 ++ strings_Join (selected_predicates (Table_Fields t) args) " AND "),
             (selected_params (Table_Fields t) values
              ++ selected_params (Table_Fields t) args)%list)
  /\ length (selected_params (Table_Fields t) values
             ++ selected_params (Table_Fields t) args)%list
     = (count_non_nil values + count_non_nil args)%nat.
Proof.
  intros Hargs Hvalues. unfold Table_Update, Table_UpdateMany, Setter_Values.
  rewrite (positional_predicates _ _ Hargs). cbn [pbind Setter_t Setter_query Setter_args].
  rewrite (positional_predicates _ _ Hvalues). cbn [pbind].
  repeat split.
  unfold selected_params. rewrite length_app, !length_map.
  now rewrite !selected_length by assumption.
Qed.

Lemma Update_Values_statement_witness :
  (positions_in_range (Table_Fields sample_table) [@SInt64 sample_runtime 1]
   /\ positions_in_range (Table_Fields sample_table)
        [@SNil sample_runtime; SString "x"; SInt64 5])
  /\ pbind (@Table_Update sample_runtime sample_table [SInt64 1])
       (fun s => Setter_Values s [SNil; SString "x"; SInt64 5])
     = Done ("UPDATE shop.t SET t.`name`=?, t.`score`=? WHERE t.`id`=? limit 1",
             [SString "x"; SInt64 5; SInt64 1]).
Proof.
  assert (Hargs : positions_in_range (Table_Fields sample_table)
                    [@SInt64 sample_runtime 1])
    by (apply positions_in_range_length; simpl; lia).
  assert (Hvalues : positions_in_range (Table_Fields sample_table)
                      [@SNil sample_runtime; SString "x"; SInt64 5])
    by (apply positions_in_range_length; simpl; lia).
  split; [ split; assumption | ].
  exact (proj1 (@Update_Values_statement sample_runtime sample_table
                  [SInt64 1] [SNil; SString "x"; SInt64 5] Hargs Hvalues)).
Defined.

(** X19: [Del], [GetMany], [FindMany] and [CountBy] build the predicates
    and bind the arguments that [Get] does, for a positional list within
    the fields: [Del] joins them with AND after the DELETE prefix and ends
    with [LIMIT 1]; [GetMany] and [FindMany] are [Get] and [Find] without
    a limit; [CountBy] joins them with AND after the COUNT statement. *)
Theorem AND_operations_statement `{GoRuntime} (t : Table) (args : list Src) :
  positions_in_range (Table_Fields t) args ->
  Table_Del t args
  = Done (Table_sqlDelete t ++ " WHERE "
          ++ strings_Join (selected_predicates (Table_Fields t) args) " AND "
          ++ " LIMIT 1",
          selected_params (Table_Fields t) args)
  /\ Table_GetMany t args
     = Done (Table_sqlSelect t ++ " WHERE "
             ++ strings_Join (selected_predicates (Table_Fields t) args) " AND ",
             selected_params (Table_Fields t) args)
  /\ Table_FindMany t args
     = Done (Table_sqlSelect t ++ " WHERE "
             ++ strings_Join (selected_predicates (Table_Fields t) args) " OR ",
             selected_params (Table_Fields t) args)
  /\ Table_CountBy t args
     = Done (Table_sqlSelectCount t ++ " WHERE "
             ++ strings_Join (selected_predicates (Table_Fields t) args) " AND "
             ++ " ",
             selected_params (Table_Fields t) args)
  /\ length (selected_params (Table_Fields t) args) = count_non_nil args.
Proof.
  intros Hrange. unfold Table_Del, Table_GetMany, Table_FindMany, Table_CountBy.
  rewrite (positional_predicates _ _ Hrange). cbn [pbind]. repeat split.
  unfold selected_params. rewrite length_map. now apply selected_length.
Qed.

Lemma AND_operations_statement_witness :
  positions_in_range (Table_Fields sample_table)
    [@SInt64 sample_runtime 1; SString "x"]
  /\ @Table_Del sample_runtime sample_table [SInt64 1; SString "x"]
     = Done ("DELETE FROM shop.t WHERE t.`id`=? AND t.`name`=? LIMIT 1",
             [SInt64 1; SString "x"]).
Proof.
  assert (Hrange : positions_in_range (Table_Fields sample_table)
                     [@SInt64 sample_runtime 1; SString "x"])
    by (apply positions_in_range_length; simpl; lia).
  split; [ exact Hrange | ].
  exact (proj1 (@AND_operations_statement sample_runtime sample_table
                  [SInt64 1; SString "x"] Hrange)).
Defined.

(** X20: with every argument nil, the empty list included, the AND-joined
    operations emit an empty predicate too: [Del] executes
    [DELETE ... WHERE  LIMIT 1], [Get] and [GetMany] select with an empty
    WHERE clause, [CountBy] counts with one, [Update] keeps one for its
    setter, and a setter whose values are all nil executes an UPDATE with
    an empty SET list; none binds an argument of its own. *)
Theorem all_nil_statements `{GoRuntime} (t : Table) (args : list Src) (s : Setter) :
  Forall (fun arg => is_nil arg = true) args ->
  Table_Del t args = Done (Table_sqlDelete t ++ " WHERE " ++ "" ++ " LIMIT 1", [])
  /\ Table_Get t args = Done (Table_sqlSelect t ++ " WHERE " ++ "" ++ " limit 1", [])
  /\ Table_GetMany t args = Done (Table_sqlSelect t ++ " WHERE " ++ "", [])
  /\ Table_CountBy t args = Done (Table_sqlSelectCount t ++ " WHERE " ++ "" ++ " ", [])
  /\ Table_Update t args = Done (mkSetter t ("WHERE " ++ "" ++ " limit 1") [])
  /\ Table_UpdateMany t args = Done (mkSetter t ("WHERE " ++ "") [])
  /\ Setter_Values s args
     = Done (Table_sqlUpdate (Setter_t s) ++ " SET " ++ "" ++ " " ++ Setter_query s,
             Setter_args s).
Proof.
  intros Hnil.
  unfold Table_Del, Table_Get, Table_GetMany, Table_CountBy, Table_Update,
    Table_UpdateMany, Setter_Values.
  rewrite !positional_all_nil by assumption. repeat split.
Qed.

Lemma all_nil_statements_witness :
  Forall (fun arg => is_nil arg = true) [@SNil sample_runtime; SNil]
  /\ @Table_Del sample_runtime sample_table [SNil; SNil]
     = Done ("DELETE FROM shop.t WHERE  LIMIT 1", []).
Proof.
  assert (Hnil : Forall (fun arg => is_nil arg = true) [@SNil sample_runtime; SNil])
    by (repeat constructor).
  split; [ exact Hnil | ].
  exact (proj1 (@all_nil_statements sample_runtime sample_table [SNil; SNil]
                  (mkSetter sample_table "" []) Hnil)).
Defined.

Section FieldInvariants.

Context `{G : GoRuntime} {D : SqlRuntime}.

Lemma FieldType_Scan_parsed (t0 t : FieldType) (v : Src) :
  FieldType_Scan t0 v = Done (t, None) -> FieldType_parsed t.
Proof.
  unfold FieldType_Scan.
  destruct v; try discriminate;
    (destruct (parseFieldType _) as [[[name code] length] | msg] eqn:Hparse;
     cbn [pbind]; [ | discriminate ]);
    intros [= <-]; apply parseFieldType_inv in Hparse as (_ & Hname & _ & Hcode & Hlen);
    now repeat split.
Qed.

Lemma FieldDefault_Scan_scanned (d : FieldDefault) (v : Src) (err : option Error) :
  FieldDefault_Scan (mkFieldDefault false "" false) v = Done (d, err) ->
  FieldDefault_scanned d /\ (FieldDefault_Null d = true <-> v = SNil).
Proof.
  unfold FieldDefault_Scan, FieldDefault_scanned.
  destruct v; try discriminate; intros [= <- <-]; cbn.
  - now repeat split.
  - split; [ now destruct (String.eqb _ _) | ]. split; discriminate.
Qed.

(** What a catalog row gives, when it scans. *)
Lemma row_field_parsed (tablename : string) (cols : ColumnRow) (field : Field) :
  row_field tablename cols = Done (inr field) ->
  FieldType_parsed (Field_Type field)
  /\ FieldDefault_scanned (Field_Default field)
  /\ (FieldDefault_Null (Field_Default field) = true <-> COLUMN_DEFAULT cols = SNil).
Proof.
  rewrite row_field_scan_row. unfold scan_row.
  repeat (match goal with
          | |- context [rbind ?m _] =>
              let H := fresh "Hcol" in
              unfold rbind at 1; destruct m as [[? | ?] | ?] eqn:H; try discriminate
          end).
  cbn [ret]. intros [= <-]. cbn.
  unfold scan_Scanner in Hcol0, Hcol1.
  destruct (FieldType_Scan _ _) as [[ft [e |]] | msg] eqn:Htype; try discriminate Hcol0.
  injection Hcol0 as <-.
  destruct (FieldDefault_Scan _ _) as [[fd [e |]] | msg] eqn:Hdefault;
    try discriminate Hcol1.
  injection Hcol1 as <-.
  split; [ exact (FieldType_Scan_parsed _ _ _ Htype) | ].
  exact (FieldDefault_Scan_scanned _ _ _ Hdefault).
Qed.

Lemma new_nullable_closed (code : Z) :
  code ∈ all_type_codes ->
  match new_nullable code with
  | ScratchBytes _ => False
  | _ => True
  end.
Proof.
  unfold all_type_codes. intros Hcode.
  repeat (apply elem_of_cons in Hcode as [-> | Hcode]; [ exact I | ]).
  now apply elem_of_nil in Hcode.
Qed.

End FieldInvariants.

(** X21: every field of a table that [GetTable] returns is well formed:
    its type name is a run of word bytes, its type code is one of the
    closed set, so that [formatDbType] names it and [makeNullableScans]
    never falls to its [default] case, and its length lies between 0 and
    the largest [int]; its default is marked null exactly when the
    catalog default was NULL, then with the text [NULL], and otherwise
    carries the current-timestamp mark exactly when its text is
    [CURRENT_TIMESTAMP]. *)
Theorem GetTable_field_invariants `{G : GoRuntime} {D : SqlRuntime}
    (db_name tablename : string) (cursor : Cursor) (t : Table) :
  GetTable db_name (inr cursor) tablename = Done (inr t) ->
  Forall (fun field =>
            FieldType_parsed (Field_Type field)
            /\ FieldDefault_scanned (Field_Default field)
            /\ (exists name,
                  formatDbType (FieldType_Value (Field_Type field)) = Done name)
            /\ match new_nullable (FieldType_Value (Field_Type field)) with
               | ScratchBytes _ => False
               | _ => True
               end)
    (Table_Fields t)
  /\ Forall2 (fun cols field =>
                FieldDefault_Null (Field_Default field) = true
                <-> COLUMN_DEFAULT cols = SNil)
       (Cursor_rows cursor) (Table_Fields t).
Proof.
  intros Hget. destruct (GetTable_inv _ _ _ _ Hget) as (_ & Hrows & _).
  clear Hget. induction Hrows as [| cols field rows fields Hfield _ [IH1 IH2]];
    [ split; constructor | ].
  destruct (row_field_parsed _ _ _ Hfield) as (Htype & Hdefault & Hnull).
  split; constructor; try assumption.
  split; [ exact Htype | ]. split; [ exact Hdefault | ].
  destruct Htype as (_ & Hcode & _). split; [ | now apply new_nullable_closed ].
  clear -Hcode. unfold all_type_codes in Hcode.
  repeat (apply elem_of_cons in Hcode as [-> | Hcode]; [ eexists; reflexivity | ]).
  now apply elem_of_nil in Hcode.
Qed.

Lemma GetTable_field_invariants_witness :
  @GetTable sample_runtime sample_sql "shop" (inr sample_cursor) "t"
  = Done (inr sample_table)
  /\ Forall (fun field =>
               FieldType_parsed (Field_Type field)
               /\ FieldDefault_scanned (Field_Default field)
               /\ (exists name,
                     formatDbType (FieldType_Value (Field_Type field)) = Done name)
               /\ match @new_nullable sample_runtime
                          (FieldType_Value (Field_Type field)) with
                  | ScratchBytes _ => False
                  | _ => True
                  end)
       (Table_Fields sample_table).
Proof.
  assert (Hget : @GetTable sample_runtime sample_sql "shop" (inr sample_cursor) "t"
                 = Done (inr sample_table)) by reflexivity.
  split; [ exact Hget | ].
  exact (proj1 (@GetTable_field_invariants sample_runtime sample_sql "shop" "t"
                  sample_cursor sample_table Hget)).
Defined.
